(** * SkyCast: location registry, favorites ledger and visit history

    A shallow embedding of [server/storage.ts] (class [DatabaseStorage]) and of
    the location-management handlers of [server/routes.ts], over the tables
    declared in [shared/schema.ts].

    The persistent store is a record of three tables.  A table is the list of
    its rows in the order the store scans them; an [INSERT] appends a row, an
    [UPDATE] rewrites rows in place and a [DELETE] filters rows out.  Every
    handler runs its statements one after the other, so a handler is a
    function from a store to a store and a response.

    Conventions.
    - [serial] keys, [integer] counters and timestamps are integers ([Z]).
      A statement that a column type rejects (an integer outside 32 bits, a
      string longer than its [varchar]) fails in the store and the handler
      answers 500.  The storage functions give what a statement does when
      the store accepts it; where a result depends on the range, the range is
      a hypothesis ([in_int32]), and [delete_favorite_status] gives the
      answer of the handler with its failing path.
    - [favorite_locations.location_id] and [location_history.location_id]
      reference [locations.id].  An [INSERT] whose location id has no row in
      [locations] raises and inserts nothing; the handlers only insert the
      id of a location they have just resolved.  [addFavorite] and
      [addToHistory] are the statements on an id that has its row
      ([has_location]), and a result stated on one of them for a location
      id of any origin carries that hypothesis.
    - The [real] columns [lat] and [lon] are only ever compared with the
      store's [=].  A coordinate is an integer code of the value the store
      holds for it, two codes being equal exactly when the store's [=] holds.
    - [defaultNow()] and [new Date()] both read the clock; every operation
      that reads it takes the reading as its argument [now], and a handler
      passes its one reading to the statements it issues.
    - A query with [ORDER BY] names a sort key and nothing else.  Its answers
      are described by a relation ([orderBy_desc]): any arrangement of the
      selected rows that is sorted on the key.  [sort_desc] is one such
      arrangement and makes the queries executable.  [limit(n)] keeps the
      first [n] rows of the arrangement. *)

From Stdlib Require Import String ZArith Bool Arith List Permutation Sorted Lia.
Import ListNotations.
Local Open Scope Z_scope.

(** ** Rows (shared/schema.ts) *)

Definition coord := Z.
Definition timestamp := Z.

(** [locations]: id, name, country, state (nullable), lat, lon, created_at,
    updated_at. *)
Record Location := mkLocation
  { loc_id : Z;
    loc_name : string;
    loc_country : string;
    loc_state : option string;
    loc_lat : coord;
    loc_lon : coord;
    loc_createdAt : timestamp;
    loc_updatedAt : timestamp }.

(** [favorite_locations]: id, location_id, user_id (nullable), created_at. *)
Record FavoriteLocation := mkFavoriteLocation
  { fav_id : Z;
    fav_locationId : Z;
    fav_userId : option string;
    fav_createdAt : timestamp }.

(** [location_history]: id, location_id, user_id (nullable), visit_count,
    last_visited. *)
Record LocationHistory := mkLocationHistory
  { hist_id : Z;
    hist_locationId : Z;
    hist_userId : option string;
    hist_visitCount : Z;
    hist_lastVisited : timestamp }.

(** The fields of a request body that [insertLocationSchema] reads:
    [country] and [state] may be left out. *)
Record LocationBody := mkLocationBody
  { body_name : string;
    body_country : option string;
    body_state : option string;
    body_lat : coord;
    body_lon : coord }.

(** [InsertLocation], the output of [insertLocationSchema.parse]. *)
Record InsertLocation := mkInsertLocation
  { ins_name : string;
    ins_country : string;
    ins_state : option string;
    ins_lat : coord;
    ins_lon : coord }.

(** [country: z.string().optional().default("Unknown")],
    [state: z.string().optional().nullable()]. *)
Definition insertLocationSchema_parse (body : LocationBody) : InsertLocation :=
  {| ins_name := body_name body;
     ins_country := match body_country body with
                    | Some c => c
                    | None => "Unknown"%string
                    end;
     ins_state := body_state body;
     ins_lat := body_lat body;
     ins_lon := body_lon body |}.

(** [InsertFavoriteLocation]. *)
Record InsertFavoriteLocation := mkInsertFavoriteLocation
  { ins_fav_locationId : Z;
    ins_fav_userId : option string }.

(** ** The store *)

Record Store := mkStore
  { locations : list Location;
    favoriteLocations : list FavoriteLocation;
    locationHistory : list LocationHistory;
    locations_seq : Z;
    favoriteLocations_seq : Z;
    locationHistory_seq : Z }.

Definition empty_store : Store :=
  {| locations := [];
     favoriteLocations := [];
     locationHistory := [];
     locations_seq := 1;
     favoriteLocations_seq := 1;
     locationHistory_seq := 1 |}.

(** ** Identities

    An identity is [string | null | undefined]; [None] stands for both absent
    values.  The code tests it for truthiness: only a non-empty string passes. *)

Definition truthy (userId : option string) : bool :=
  match userId with
  | Some u => negb (String.eqb u ""%string)
  | None => false
  end.

(** [userId || null]. *)
Definition or_null (userId : option string) : option string :=
  if truthy userId then userId else None.

(** [userId ? eq(table.userId, userId) : isNull(table.userId)], applied to the
    [user_id] column of a row.  A null column never satisfies [eq]. *)
Definition user_scope (userId col : option string) : bool :=
  if truthy userId then
    match col, userId with
    | Some c, Some u => String.eqb c u
    | _, _ => false
    end
  else
    match col with
    | None => true
    | Some _ => false
    end.

(** Equality of two [user_id] values as data (null equal to null). *)
Definition userId_eqb (a b : option string) : bool :=
  match a, b with
  | Some x, Some y => String.eqb x y
  | None, None => true
  | _, _ => false
  end.

(** ** Query building blocks *)

(** [from(t).innerJoin(locations, eq(t.locationId, locations.id))]. *)
Definition innerJoin {A : Type} (locationId : A -> Z) (rows : list A)
    (locs : list Location) : list (A * Location) :=
  flat_map
    (fun r => map (pair r) (filter (fun l => locationId r =? loc_id l) locs))
    rows.

(** [orderBy(desc(key))]: the answer [out] holds the rows [rows], each as
    often as it was selected, with the key never increasing. *)
Definition desc_by {A : Type} (key : A -> Z) (a b : A) : Prop := key b <= key a.

Definition orderBy_desc {A : Type} (key : A -> Z) (rows out : list A) : Prop :=
  Permutation rows out /\ StronglySorted (desc_by key) out.

(** An executable [ORDER BY key DESC]: insertion sort that keeps rows with
    equal keys in scan order. *)
Fixpoint insert_desc {A : Type} (key : A -> Z) (x : A) (l : list A) : list A :=
  match l with
  | [] => [x]
  | y :: l' => if key y <=? key x then x :: l else y :: insert_desc key x l'
  end.

Fixpoint sort_desc {A : Type} (key : A -> Z) (l : list A) : list A :=
  match l with
  | [] => []
  | x :: l' => insert_desc key x (sort_desc key l')
  end.

(** ** DatabaseStorage (server/storage.ts) *)

(** [select().from(locations).where(and(eq(lat), eq(lon))).limit(1)]. *)
Definition findLocationByCoords (s : Store) (lat lon : coord) : option Location :=
  find (fun l => (loc_lat l =? lat) && (loc_lon l =? lon)) (locations s).

(** [insert(locations).values(location).returning()]. *)
Definition createLocation (s : Store) (location : InsertLocation)
    (now : timestamp) : Store * Location :=
  let newLocation :=
    {| loc_id := locations_seq s;
       loc_name := ins_name location;
       loc_country := ins_country location;
       loc_state := ins_state location;
       loc_lat := ins_lat location;
       loc_lon := ins_lon location;
       loc_createdAt := now;
       loc_updatedAt := now |} in
  ({| locations := locations s ++ [newLocation];
      favoriteLocations := favoriteLocations s;
      locationHistory := locationHistory s;
      locations_seq := locations_seq s + 1;
      favoriteLocations_seq := favoriteLocations_seq s;
      locationHistory_seq := locationHistory_seq s |},
   newLocation).

(** The rows that [getFavoriteLocations] selects before ordering. *)
Definition favorite_rows (s : Store) (userId : option string)
    : list (FavoriteLocation * Location) :=
  filter (fun p => user_scope userId (fav_userId (fst p)))
    (innerJoin fav_locationId (favoriteLocations s) (locations s)).

Definition fav_key (p : FavoriteLocation * Location) : Z := fav_createdAt (fst p).

(** [getFavoriteLocations]: what the query may answer ... *)
Definition getFavoriteLocations_returns (s : Store) (userId : option string)
    (favorites : list Location) : Prop :=
  exists rows,
    orderBy_desc fav_key (favorite_rows s userId) rows /\
    favorites = map snd rows.

(** ... and one answer, computed. *)
Definition getFavoriteLocations (s : Store) (userId : option string)
    : list Location :=
  map snd (sort_desc fav_key (favorite_rows s userId)).

(** [insert(favoriteLocations).values(favorite).returning()]. *)
Definition addFavorite (s : Store) (favorite : InsertFavoriteLocation)
    (now : timestamp) : Store * FavoriteLocation :=
  let newFavorite :=
    {| fav_id := favoriteLocations_seq s;
       fav_locationId := ins_fav_locationId favorite;
       fav_userId := ins_fav_userId favorite;
       fav_createdAt := now |} in
  ({| locations := locations s;
      favoriteLocations := favoriteLocations s ++ [newFavorite];
      locationHistory := locationHistory s;
      locations_seq := locations_seq s;
      favoriteLocations_seq := favoriteLocations_seq s + 1;
      locationHistory_seq := locationHistory_seq s |},
   newFavorite).

(** The [where] clause shared by [removeFavorite] and [isFavorite]. *)
Definition favorite_matches (locationId : Z) (userId : option string)
    (f : FavoriteLocation) : bool :=
  (fav_locationId f =? locationId) && user_scope userId (fav_userId f).

Definition removeFavorite (s : Store) (locationId : Z) (userId : option string)
    : Store :=
  {| locations := locations s;
     favoriteLocations :=
       filter (fun f => negb (favorite_matches locationId userId f))
         (favoriteLocations s);
     locationHistory := locationHistory s;
     locations_seq := locations_seq s;
     favoriteLocations_seq := favoriteLocations_seq s;
     locationHistory_seq := locationHistory_seq s |}.

(** [const [favorite] = ... .limit(1); return !!favorite]. *)
Definition isFavorite (s : Store) (locationId : Z) (userId : option string)
    : bool :=
  match find (favorite_matches locationId userId) (favoriteLocations s) with
  | Some _ => true
  | None => false
  end.

(** The rows that [getLocationHistory] selects before ordering. *)
Definition history_rows (s : Store) (userId : option string)
    : list (LocationHistory * Location) :=
  filter (fun p => user_scope userId (hist_userId (fst p)))
    (innerJoin hist_locationId (locationHistory s) (locations s)).

Definition hist_key (p : LocationHistory * Location) : Z :=
  hist_lastVisited (fst p).

(** [limit: number = 10]. *)
Definition limit_or_default (limit : option nat) : nat :=
  match limit with
  | Some n => n
  | None => 10%nat
  end.

(** The query of [getLocationHistory] when it carries a LIMIT clause: the
    limit is a number of rows, or absent ([limit: number = 10] applies).
    [getLocationHistory_number_returns] below is the method on every number
    it can be given. *)
Definition getLocationHistory_returns (s : Store) (userId : option string)
    (limit : option nat) (history : list Location) : Prop :=
  exists rows,
    orderBy_desc hist_key (history_rows s userId) rows /\
    history = map snd (firstn (limit_or_default limit) rows).

Definition getLocationHistory (s : Store) (userId : option string)
    (limit : option nat) : list Location :=
  map snd
    (firstn (limit_or_default limit)
       (sort_desc hist_key (history_rows s userId))).

(** [getLocationHistory(userId, limit)] with [limit] as the JavaScript value
    the method receives: [undefined] ([None], the default 10 applies), [NaN]
    ([Some None]) or an integer.  [.limit(limit)] writes a LIMIT clause for a
    number that is [>= 0]; for a negative number and for [NaN] the statement
    has no LIMIT clause and every selected row is returned. *)
Definition getLocationHistory_unlimited_returns (s : Store)
    (userId : option string) (history : list Location) : Prop :=
  exists rows,
    orderBy_desc hist_key (history_rows s userId) rows /\
    history = map snd rows.

Definition getLocationHistory_number_returns (s : Store)
    (userId : option string) (limit : option (option Z))
    (history : list Location) : Prop :=
  match limit with
  | None => getLocationHistory_returns s userId None history
  | Some (Some n) =>
      if 0 <=? n then getLocationHistory_returns s userId (Some (Z.to_nat n)) history
      else getLocationHistory_unlimited_returns s userId history
  | Some None => getLocationHistory_unlimited_returns s userId history
  end.

Definition getLocationHistory_number (s : Store) (userId : option string)
    (limit : option (option Z)) : list Location :=
  match limit with
  | None => getLocationHistory s userId None
  | Some (Some n) =>
      if 0 <=? n then getLocationHistory s userId (Some (Z.to_nat n))
      else map snd (sort_desc hist_key (history_rows s userId))
  | Some None => map snd (sort_desc hist_key (history_rows s userId))
  end.

(** The [where] clause of the lookup in [addToHistory]. *)
Definition history_matches (locationId : Z) (userId : option string)
    (h : LocationHistory) : bool :=
  (hist_locationId h =? locationId) && user_scope userId (hist_userId h).

(** [update(locationHistory).set({visitCount, lastVisited}).where(eq(id, ...))]:
    every row with the given id receives the two new values. *)
Definition update_history (id visitCount : Z) (lastVisited : timestamp)
    (h : LocationHistory) : LocationHistory :=
  if hist_id h =? id then
    {| hist_id := hist_id h;
       hist_locationId := hist_locationId h;
       hist_userId := hist_userId h;
       hist_visitCount := visitCount;
       hist_lastVisited := lastVisited |}
  else h.

Definition addToHistory (s : Store) (locationId : Z) (userId : option string)
    (now : timestamp) : Store :=
  match find (history_matches locationId userId) (locationHistory s) with
  | Some existingHistory =>
      {| locations := locations s;
         favoriteLocations := favoriteLocations s;
         locationHistory :=
           map (update_history (hist_id existingHistory)
                  (hist_visitCount existingHistory + 1) now)
             (locationHistory s);
         locations_seq := locations_seq s;
         favoriteLocations_seq := favoriteLocations_seq s;
         locationHistory_seq := locationHistory_seq s |}
  | None =>
      {| locations := locations s;
         favoriteLocations := favoriteLocations s;
         locationHistory :=
           locationHistory s ++
           [ {| hist_id := locationHistory_seq s;
                hist_locationId := locationId;
                hist_userId := or_null userId;
                hist_visitCount := 1;
                hist_lastVisited := now |} ];
         locations_seq := locations_seq s;
         favoriteLocations_seq := favoriteLocations_seq s;
         locationHistory_seq := locationHistory_seq s + 1 |}
  end.

Definition clearHistory (s : Store) (userId : option string) : Store :=
  {| locations := locations s;
     favoriteLocations := favoriteLocations s;
     locationHistory :=
       filter (fun h => negb (user_scope userId (hist_userId h)))
         (locationHistory s);
     locations_seq := locations_seq s;
     favoriteLocations_seq := favoriteLocations_seq s;
     locationHistory_seq := locationHistory_seq s |}.

(** ** Location-management handlers (server/routes.ts)

    A request body that [insertLocationSchema.parse] rejects is answered with
    status 500 before any statement reaches the store; the handlers below
    take a body that parses.  Path and query parameters arrive already read
    by [parseInt]. *)

(** The block both POST handlers start with:
    [let location = await storage.findLocationByCoords(lat, lon);
     if (!location) location = await storage.createLocation(locationData);] *)
Definition resolveOrCreateLocation (s : Store) (body : LocationBody)
    (now : timestamp) : Store * Location :=
  match findLocationByCoords s (body_lat body) (body_lon body) with
  | Some location => (s, location)
  | None => createLocation s (insertLocationSchema_parse body) now
  end.

(** GET /api/locations/favorites *)
Definition get_favorites_returns (s : Store) (userId : option string)
    (favorites : list Location) : Prop :=
  getFavoriteLocations_returns s userId favorites.

Definition get_favorites (s : Store) (userId : option string) : list Location :=
  getFavoriteLocations s userId.

(** POST /api/locations/favorites answers [{location, favorite}] or status 409
    "Location already in favorites". *)
Inductive FavoriteResponse :=
| FavoriteAdded (location : Location) (favorite : FavoriteLocation)
| AlreadyFavorited.

Definition post_favorites (s : Store) (body : LocationBody)
    (userId : option string) (now : timestamp) : Store * FavoriteResponse :=
  let (s1, location) := resolveOrCreateLocation s body now in
  if isFavorite s1 (loc_id location) userId then (s1, AlreadyFavorited)
  else
    let (s2, favorite) :=
      addFavorite s1
        {| ins_fav_locationId := loc_id location;
           ins_fav_userId := or_null userId |} now in
    (s2, FavoriteAdded location favorite).

(** DELETE /api/locations/favorites/:locationId answers [{success: true}]
    when its statement runs; [delete_favorite_status] below is the handler
    with the path on which it does not. *)
Definition delete_favorite (s : Store) (locationId : Z)
    (userId : option string) : Store * bool :=
  (removeFavorite s locationId userId, true).

(** GET /api/locations/favorites/check *)
Definition get_favorites_check (s : Store) (locationId : Z)
    (userId : option string) : bool :=
  isFavorite s locationId userId.

(** GET /api/locations/history *)
Definition get_history_returns (s : Store) (userId : option string)
    (limit : option nat) (history : list Location) : Prop :=
  getLocationHistory_returns s userId limit history.

Definition get_history (s : Store) (userId : option string)
    (limit : option nat) : list Location :=
  getLocationHistory s userId limit.

(** POST /api/locations/history answers [{location, success: true}]. *)
Definition post_history (s : Store) (body : LocationBody)
    (userId : option string) (now : timestamp) : Store * Location :=
  let (s1, location) := resolveOrCreateLocation s body now in
  (addToHistory s1 (loc_id location) (or_null userId) now, location).

(** DELETE /api/locations/history answers [{success: true, ...}]. *)
Definition delete_history (s : Store) (userId : option string) : Store * bool :=
  (clearHistory s (or_null userId), true).

(** ** The range of [integer] columns and the failing path of a handler *)

Definition int32_min : Z := -2147483648.
Definition int32_max : Z := 2147483647.

Definition in_int32 (z : Z) : bool := (int32_min <=? z) && (z <=? int32_max).

(** The status of an answer: [res.json(...)] or [res.status(500).json(...)]. *)
Inductive Status := Status200 | Status500.

(** DELETE /api/locations/favorites/:locationId with its [try]/[catch]:
    [await storage.removeFavorite(parseInt(locationId), userId)] compares the
    [integer] column [location_id] with the parameter.  The store raises for
    a parameter outside the 32-bit range, nothing is deleted and the handler
    answers [res.status(500).json({ error: ... })]; otherwise it answers
    [{ success: true }] after the removal. *)
Definition delete_favorite_status (s : Store) (locationId : Z)
    (userId : option string) : Store * Status :=
  if in_int32 locationId then (fst (delete_favorite s locationId userId), Status200)
  else (s, Status500).

(** ** Sequential executions *)

Inductive Request :=
| AddFavorite (body : LocationBody) (userId : option string)
| RemoveFavorite (locationId : Z) (userId : option string)
| AddHistory (body : LocationBody) (userId : option string)
| ClearHistory (userId : option string).

Definition handle (s : Store) (r : Request) (now : timestamp) : Store :=
  match r with
  | AddFavorite body userId => fst (post_favorites s body userId now)
  | RemoveFavorite locationId userId => fst (delete_favorite s locationId userId)
  | AddHistory body userId => fst (post_history s body userId now)
  | ClearHistory userId => fst (delete_history s userId)
  end.

(** The stores that the handlers produce from the empty store, one request
    after the other, each with its own clock reading. *)
Inductive reachable : Store -> Prop :=
| reachable_empty : reachable empty_store
| reachable_handle s r now : reachable s -> reachable (handle s r now).

Fixpoint run (s : Store) (reqs : list (Request * timestamp)) : Store :=
  match reqs with
  | [] => s
  | (r, now) :: reqs' => run (handle s r now) reqs'
  end.

(** * Notions used in the statements *)

(** ** Rows per pair and per coordinates *)

(** The favorites, the history rows and the locations that carry a given
    key. *)
Definition favorites_of (s : Store) (locationId : Z) (userId : option string)
    : list FavoriteLocation :=
  filter
    (fun f => (fav_locationId f =? locationId) && userId_eqb (fav_userId f) userId)
    (favoriteLocations s).

Definition history_of (s : Store) (locationId : Z) (userId : option string)
    : list LocationHistory :=
  filter
    (fun h => (hist_locationId h =? locationId) && userId_eqb (hist_userId h) userId)
    (locationHistory s).

Definition locations_at (s : Store) (lat lon : coord) : list Location :=
  filter (fun l => (loc_lat l =? lat) && (loc_lon l =? lon)) (locations s).

Definition loc_coords (l : Location) : coord * coord := (loc_lat l, loc_lon l).

Definition fav_pair (f : FavoriteLocation) : Z * option string :=
  (fav_locationId f, fav_userId f).

Definition hist_pair (h : LocationHistory) : Z * option string :=
  (hist_locationId h, hist_userId h).

(** ** Well-formed stores

    What the primary keys, the foreign keys and the handlers' own checks
    maintain in a sequential execution. *)

Definition has_location (s : Store) (locationId : Z) : Prop :=
  In locationId (map loc_id (locations s)).

Record locations_wf (s : Store) : Prop :=
  { wf_loc_ids : NoDup (map loc_id (locations s));
    wf_loc_seq : Forall (fun l => loc_id l < locations_seq s) (locations s);
    wf_loc_coords : NoDup (map loc_coords (locations s)) }.

Record favorites_wf (s : Store) : Prop :=
  { wf_fav_fk : Forall (fun f => has_location s (fav_locationId f))
                  (favoriteLocations s);
    wf_fav_pairs : NoDup (map fav_pair (favoriteLocations s));
    wf_fav_user : Forall (fun f => fav_userId f <> Some ""%string)
                    (favoriteLocations s) }.

Record history_wf (s : Store) : Prop :=
  { wf_hist_fk : Forall (fun h => has_location s (hist_locationId h))
                   (locationHistory s);
    wf_hist_pairs : NoDup (map hist_pair (locationHistory s));
    wf_hist_user : Forall (fun h => hist_userId h <> Some ""%string)
                     (locationHistory s);
    wf_hist_ids : NoDup (map hist_id (locationHistory s));
    wf_hist_seq : Forall (fun h => hist_id h < locationHistory_seq s)
                    (locationHistory s);
    wf_hist_count : Forall (fun h => 1 <= hist_visitCount h) (locationHistory s) }.

Record store_wf (s : Store) : Prop :=
  { wf_locations : locations_wf s;
    wf_favorites : favorites_wf s;
    wf_history : history_wf s }.

(** ** Two requests in a row *)

(** The store [s1] that the first of two POST requests leaves: after the
    resolve step alone, or after either handler, with any identity. *)
Definition after_first_post (s : Store) (body : LocationBody) (now : timestamp)
    (s1 : Store) : Prop :=
  s1 = fst (resolveOrCreateLocation s body now) \/
  (exists userId, s1 = fst (post_favorites s body userId now)) \/
  (exists userId, s1 = fst (post_history s body userId now)).

(** ** History rows before and after a visit *)

(** The row [e] after one more visit at time [now]. *)
Definition visited (e : LocationHistory) (now : timestamp) : LocationHistory :=
  {| hist_id := hist_id e;
     hist_locationId := hist_locationId e;
     hist_userId := hist_userId e;
     hist_visitCount := hist_visitCount e + 1;
     hist_lastVisited := now |}.

(** The row that a first visit inserts. *)
Definition first_visit (s : Store) (locationId : Z) (userId : option string)
    (now : timestamp) : LocationHistory :=
  {| hist_id := locationHistory_seq s;
     hist_locationId := locationId;
     hist_userId := or_null userId;
     hist_visitCount := 1;
     hist_lastVisited := now |}.

(** ** Two readings that fail

    "Removing a favorite never errors on a missing target": whenever the
    identity has no favorite for the location id, the handler answers 200. *)
Definition removeFavorite_never_errors : Prop :=
  forall s locationId userId,
    isFavorite s locationId userId = false ->
    snd (delete_favorite_status s locationId userId) = Status200.

(** "The history is truncated to at most [limit] elements": for every number
    passed as the limit, an answer has at most that many locations. *)
Definition history_truncated_to_limit : Prop :=
  forall s userId n history,
    getLocationHistory_number_returns s userId (Some (Some n)) history ->
    Z.of_nat (length history) <= n.

(** ** An order on favorites with a tie-break

    Creation time descending and, among rows created at the same time,
    insertion order by the surrogate id, read either as oldest row first
    ([asc = true]) or as newest row first. *)
Definition newest_first_ties_by_id (asc : bool)
    (a b : FavoriteLocation * Location) : Prop :=
  fav_createdAt (fst b) < fav_createdAt (fst a) \/
  (fav_createdAt (fst b) = fav_createdAt (fst a) /\
   if asc then fav_id (fst a) < fav_id (fst b)
   else fav_id (fst b) < fav_id (fst a)).

(** Every answer of the favorites query is in that order. *)
Definition ties_broken_by_insertion (asc : bool) : Prop :=
  forall s userId rows,
    orderBy_desc fav_key (favorite_rows s userId) rows ->
    StronglySorted (newest_first_ties_by_id asc) rows.

(** * Sample requests and stores

    Paris (48.8566, 2.3522) and New York (40.7128, -74.0060) are the bodies
    of the scenarios; coordinates are written as their codes. *)

Definition paris : LocationBody :=
  {| body_name := "Paris"; body_country := Some "FR"%string;
     body_state := None; body_lat := 488566; body_lon := 23522 |}.

Definition new_york : LocationBody :=
  {| body_name := "New York"; body_country := None;
     body_state := Some "NY"%string; body_lat := 407128; body_lon := -740060 |}.

Definition london : LocationBody :=
  {| body_name := "London"; body_country := Some "GB"%string;
     body_state := None; body_lat := 515074; body_lon := -1278 |}.

Definition tokyo : LocationBody :=
  {| body_name := "Tokyo"; body_country := Some "JP"%string;
     body_state := None; body_lat := 356762; body_lon := 1396503 |}.

Definition cairo : LocationBody :=
  {| body_name := "Cairo"; body_country := Some "EG"%string;
     body_state := None; body_lat := 300444; body_lon := 312357 |}.

Definition u1 : option string := Some "u1"%string.

(** Adds, removals and visits mixed. *)
Definition busy_requests : list (Request * timestamp) :=
  [ (AddFavorite paris None, 1); (AddFavorite paris None, 2);
    (AddHistory paris None, 3); (AddHistory paris None, 4);
    (AddFavorite new_york u1, 5); (RemoveFavorite 2 u1, 6);
    (AddFavorite new_york u1, 7); (ClearHistory None, 8);
    (AddHistory paris None, 9) ].

(** One anonymous visit to Paris. *)
Definition one_visit : Store := fst (post_history empty_store paris None 100).

(** New York, favorite of "u1". *)
Definition new_york_favorite : Store :=
  fst (post_favorites empty_store new_york u1 5).

(** Visits by the anonymous identity and by "u1". *)
Definition two_histories : Store :=
  run empty_store
    [ (AddHistory paris None, 1); (AddHistory new_york u1, 2);
      (AddHistory paris u1, 3); (AddFavorite paris None, 4) ].

(** Five places visited, Paris once more at the end. *)
Definition five_visits : Store :=
  run empty_store
    [ (AddHistory paris None, 1); (AddHistory new_york None, 2);
      (AddHistory london None, 3); (AddHistory tokyo None, 4);
      (AddHistory cairo None, 5); (AddHistory paris None, 6) ].

(** Two favorites of the anonymous identity created at the same clock
    reading, and their joined rows. *)
Definition tie_store : Store :=
  run empty_store [ (AddFavorite paris None, 7); (AddFavorite new_york None, 7) ].

Definition paris_row : FavoriteLocation * Location :=
  ({| fav_id := 1; fav_locationId := 1; fav_userId := None; fav_createdAt := 7 |},
   {| loc_id := 1; loc_name := "Paris"; loc_country := "FR"; loc_state := None;
      loc_lat := 488566; loc_lon := 23522;
      loc_createdAt := 7; loc_updatedAt := 7 |}).

Definition new_york_row : FavoriteLocation * Location :=
  ({| fav_id := 2; fav_locationId := 2; fav_userId := None; fav_createdAt := 7 |},
   {| loc_id := 2; loc_name := "New York"; loc_country := "Unknown";
      loc_state := Some "NY"%string; loc_lat := 407128; loc_lon := -740060;
      loc_createdAt := 7; loc_updatedAt := 7 |}).

(** ** Visits in a row *)

(** [addToHistory] called for the same location and identity at each of the
    times, in order. *)
Definition visits (s : Store) (locationId : Z) (userId : option string)
    (times : list timestamp) : Store :=
  fold_left (fun s' now => addToHistory s' locationId userId now) times s.

(** * The favorites manager (client/src/components/weather/favorites-manager.tsx)

    The component keeps a page number for each of its two lists and shows
    one page of the list that the query returned. *)

(** [const ITEMS_PER_PAGE = 2]. *)
Definition ITEMS_PER_PAGE : Z := 2.

(** [Array.prototype.slice(start, end)] for integer arguments: a negative
    index counts from the end, both indices are clamped to the array. *)
Definition slice {A : Type} (start end_ : Z) (items : list A) : list A :=
  let len := Z.of_nat (length items) in
  let from := if start <? 0 then Z.max (len + start) 0 else Z.min start len in
  let to := if end_ <? 0 then Z.max (len + end_) 0 else Z.min end_ len in
  firstn (Z.to_nat (to - from)) (skipn (Z.to_nat from) items).

(** [Math.ceil(n / d)] for integers [n] and [d > 0].  A length divided by
    [ITEMS_PER_PAGE] is exact in floating point, so this is the ceiling of
    the quotient. *)
Definition ceil_div (n d : Z) : Z := - ((- n) / d).

(** [favoritesPaginated] and [historyPaginated]. *)
Record Paginated (A : Type) := mkPaginated
  { data : list A;
    totalPages : Z;
    currentPage : Z;
    totalItems : Z }.

Arguments data {A} _.
Arguments totalPages {A} _.
Arguments currentPage {A} _.
Arguments totalItems {A} _.

Definition paginate {A : Type} (items : list A) (page : Z) : Paginated A :=
  {| data := slice ((page - 1) * ITEMS_PER_PAGE) (page * ITEMS_PER_PAGE) items;
     totalPages := ceil_div (Z.of_nat (length items)) ITEMS_PER_PAGE;
     currentPage := page;
     totalItems := Z.of_nat (length items) |}.

(** [PaginationControls]: [if (totalPages <= 1) return null]; the previous
    button is disabled on page 1 and the next button on the last page. *)
Definition controls_shown {A : Type} (p : Paginated A) : bool :=
  negb (totalPages p <=? 1).

Definition prev_disabled {A : Type} (p : Paginated A) : bool :=
  currentPage p =? 1.

Definition next_disabled {A : Type} (p : Paginated A) : bool :=
  currentPage p =? totalPages p.

Inductive PageClick := ClickPrev | ClickNext.

(** The page number after a click: [onPageChange(currentPage - 1)] or
    [onPageChange(currentPage + 1)] when the button is there and enabled. *)
Definition onPageChange {A : Type} (p : Paginated A) (c : PageClick) : Z :=
  if controls_shown p then
    match c with
    | ClickPrev => if prev_disabled p then currentPage p else currentPage p - 1
    | ClickNext => if next_disabled p then currentPage p else currentPage p + 1
    end
  else currentPage p.





(** The pages [1 .. totalPages] of a list, in order. *)
Definition all_pages {A : Type} (items : list A) : list (list A) :=
  map (fun k => data (paginate items (Z.of_nat k)))
    (seq 1 (Z.to_nat (totalPages (paginate items 1)))).

(** * Location names on the client

    [formatLocationName] of the favorites manager writes the name that a row
    of its lists passes to [onLocationSelect]; [handleLocationSelect] of the
    weather page (client/src/components/search-bar.tsx) reads the name back
    when it builds the body of its add-history request. *)

(** A JavaScript string is a sequence of UTF-16 code units. *)
Definition jschar := Z.
Definition jsstring := list jschar.

Definition comma : jschar := 44.
Definition space : jschar := 32.

(** The code units that [String.prototype.trim] removes: the WhiteSpace and
    LineTerminator code points of ECMAScript. *)
Definition is_white (c : jschar) : bool :=
  (c =? 9) || (c =? 10) || (c =? 11) || (c =? 12) || (c =? 13) || (c =? 32) ||
  (c =? 160) || (c =? 5760) || ((8192 <=? c) && (c <=? 8202)) ||
  (c =? 8232) || (c =? 8233) || (c =? 8239) || (c =? 8287) ||
  (c =? 12288) || (c =? 65279).

Fixpoint trimStart (s : jsstring) : jsstring :=
  match s with
  | c :: s' => if is_white c then trimStart s' else s
  | [] => []
  end.

Definition trim (s : jsstring) : jsstring :=
  rev (trimStart (rev (trimStart s))).

(** [s.split(sep)] for a separator of one code unit. *)
Fixpoint split (sep : jschar) (s : jsstring) : list jsstring :=
  match s with
  | [] => [[]]
  | c :: s' =>
      if c =? sep then [] :: split sep s'
      else match split sep s' with
           | p :: ps => (c :: p) :: ps
           | [] => [[c]]
           end
  end.

(** Truthiness of a string. *)
Definition nonempty (s : jsstring) : bool :=
  match s with
  | [] => false
  | _ :: _ => true
  end.

(** The fields of a [Location] that the client formats: [state] is a string
    or null. *)
Record ListedLocation := mkListedLocation
  { listed_name : jsstring;
    listed_state : option jsstring;
    listed_country : jsstring }.

(** [formatLocationName]: the name, then [", " + state] and
    [", " + country], each when truthy. *)
Definition formatLocationName (location : ListedLocation) : jsstring :=
  let name := listed_name location in
  let name :=
    match listed_state location with
    | Some state => if nonempty state then name ++ [comma; space] ++ state
                    else name
    | None => name
    end in
  if nonempty (listed_country location)
  then name ++ [comma; space] ++ listed_country location
  else name.

(** [cityData] of a selection made in the search bar. *)
Record CityData := mkCityData
  { city_name : jsstring;
    city_country : jsstring;
    city_state : option jsstring }.

(** The [name], [country] and [state] of [historyData]; [None] is
    [undefined] or null. *)
Record HistoryData := mkHistoryData
  { history_name : jsstring;
    history_country : option jsstring;
    history_state : option jsstring }.

(** [handleLocationSelect], up to [historyData]: with [cityData] its fields
    are taken; without it the name is split at commas. *)
Definition handleLocationSelect (name : jsstring) (cityData : option CityData)
    : HistoryData :=
  match cityData with
  | Some cd =>
      {| history_name :=
           if nonempty (city_name cd) then city_name cd
           else trim (hd [] (split comma name));
         history_country := Some (city_country cd);
         history_state := city_state cd |}
  | None =>
      match map trim (split comma name) with
      | p0 :: p1 :: rest =>
          match rest with
          | [p2] => {| history_name := p0;
                       history_country := Some p2;
                       history_state := Some p1 |}
          | _ => {| history_name := p0;
                    history_country := Some p1;
                    history_state := None |}
          end
      | _ => {| history_name := name;
                history_country := None;
                history_state := None |}
      end
  end.

(** A string without a comma that [trim] leaves alone. *)
Definition plain (s : jsstring) : Prop := ~ In comma s /\ trim s = s.

(** Code units of an ASCII string. *)
Definition of_ascii (s : string) : jsstring :=
  map (fun a => Z.of_N (Ascii.N_of_ascii a)) (list_ascii_of_string s).

(** * The [limit] of a history request, from the client to the handler

    [getLocationHistory] of client/src/lib/weather-api.ts appends
    [limit.toString()] to the query when [limit] is truthy; the handler reads
    [limit ? parseInt(limit) : undefined].  The value consists of digits and
    at most a sign, which the query string carries unchanged. *)

(** The decimal digits of [n >= 0], most significant first. *)
Fixpoint decimal_digits (fuel : nat) (n : Z) : list Z :=
  match fuel with
  | O => []
  | S fuel' =>
      if n <? 10 then [n] else decimal_digits fuel' (n / 10) ++ [n mod 10]
  end.

Definition digit_char (d : Z) : jschar := 48 + d.

(** The number that decimal digits write, continuing from [a]. *)
Definition digits_value (ds : list Z) (a : Z) : Z :=
  fold_left (fun a d => a * 10 + d) ds a.

(** [n.toString()] for an integer of at most 21 digits; larger numbers print
    with an exponent. *)
Definition toString (n : Z) : jsstring :=
  if n <? 0 then 45 :: map digit_char (decimal_digits 21 (- n))
  else map digit_char (decimal_digits 21 n).

(** The value of a code unit as a digit in the radix, 10 or 16. *)
Definition digit_value (radix : Z) (c : jschar) : option Z :=
  if (48 <=? c) && (c <=? 57) then Some (c - 48)
  else if radix =? 16 then
    if (97 <=? c) && (c <=? 102) then Some (c - 87)
    else if (65 <=? c) && (c <=? 70) then Some (c - 55)
    else None
  else None.

(** The longest prefix of digits, read in the radix; [None] when there is no
    digit. *)
Fixpoint parse_digits (radix : Z) (s : jsstring) (acc : option Z) : option Z :=
  match s with
  | c :: s' =>
      match digit_value radix c with
      | Some d =>
          parse_digits radix s'
            (Some (match acc with Some a => a | None => 0 end * radix + d))
      | None => acc
      end
  | [] => acc
  end.

(** A leading "-" or "+" is read as the sign and removed. *)
Definition read_sign (s : jsstring) : Z * jsstring :=
  match s with
  | c :: s' => if c =? 45 then (-1, s') else if c =? 43 then (1, s') else (1, s)
  | [] => (1, [])
  end.

(** A leading "0x" or "0X" selects radix 16 and is removed. *)
Definition read_radix (s : jsstring) : Z * jsstring :=
  match s with
  | c :: x :: s' =>
      if (c =? 48) && ((x =? 120) || (x =? 88)) then (16, s') else (10, s)
  | _ => (10, s)
  end.

(** [parseInt(s)] without a radix; [None] is NaN.  Leading white space is
    skipped, a sign is read, the radix is chosen, and the digits that follow
    are read as far as they go.  The result is exact for values below
    2^53. *)
Definition parseInt (s : jsstring) : option Z :=
  let (sign, s1) := read_sign (trimStart s) in
  let (radix, s2) := read_radix s1 in
  option_map (Z.mul sign) (parse_digits radix s2 None).

(** Client: [if (limit) params.append("limit", limit.toString())]. *)
Definition history_limit_param (limit : option Z) : option jsstring :=
  match limit with
  | Some n => if n =? 0 then None else Some (toString n)
  | None => None
  end.

(** Handler: [limit ? parseInt(limit as string) : undefined]; the outer
    [None] is [undefined]. *)
Definition history_limit_query (limit : option jsstring) : option (option Z) :=
  match limit with
  | Some l => if nonempty l then Some (parseInt l) else None
  | None => None
  end.

(** GET /api/locations/history with its [limit] parameter as it arrives.
    What [parseInt] returns goes to the storage method as it is, [NaN] and
    negative numbers included. *)
Definition get_history_query_returns (s : Store) (userId : option string)
    (limit : option jsstring) (history : list Location) : Prop :=
  getLocationHistory_number_returns s userId (history_limit_query limit) history.

(** The favorites manager asks for its history with
    [getLocationHistory(userId || undefined, 50)]. *)
Definition manager_history_limit : option jsstring :=
  history_limit_param (Some 50).

(** * Identities, orderings and lists *)

Section Identities.

Lemma userId_eqb_eq a b : userId_eqb a b = true <-> a = b.
Proof.
  destruct a as [x|], b as [y|]; simpl; try (split; congruence).
  rewrite String.eqb_eq. split; congruence.
Qed.

Lemma userId_eqb_refl a : userId_eqb a a = true.
Proof. now apply userId_eqb_eq. Qed.

Lemma truthy_or_null u : truthy (or_null u) = truthy u.
Proof. unfold or_null. destruct (truthy u) eqn:E; auto. Qed.

Lemma or_null_idem u : or_null (or_null u) = or_null u.
Proof. unfold or_null at 1. rewrite truthy_or_null. unfold or_null.
  destruct (truthy u); reflexivity. Qed.

(** The [where] clause on [user_id] selects the rows whose column holds
    [userId || null]. *)
Lemma user_scope_or_null u c : user_scope u c = userId_eqb c (or_null u).
Proof.
  unfold user_scope, or_null. destruct (truthy u) eqn:E.
  - destruct u as [x|]; [|discriminate]. destruct c; reflexivity.
  - destruct c; reflexivity.
Qed.

Lemma user_scope_normal u c : user_scope (or_null u) c = user_scope u c.
Proof. now rewrite !user_scope_or_null, or_null_idem. Qed.

Lemma user_scope_true u c : user_scope u c = true <-> c = or_null u.
Proof. rewrite user_scope_or_null. apply userId_eqb_eq. Qed.

Lemma or_null_empty : or_null (Some ""%string) = None.
Proof. reflexivity. Qed.

End Identities.

Section Ordering.
Context {A : Type} (key : A -> Z).

Lemma insert_desc_perm x l : Permutation (x :: l) (insert_desc key x l).
Proof.
  induction l as [|y l IH]; simpl; auto.
  destruct (key y <=? key x); auto.
  rewrite perm_swap. now constructor.
Qed.

Lemma sort_desc_perm l : Permutation l (sort_desc key l).
Proof.
  induction l as [|x l IH]; simpl; auto.
  rewrite <- insert_desc_perm. now constructor.
Qed.

Lemma insert_desc_sorted x l :
  StronglySorted (desc_by key) l -> StronglySorted (desc_by key) (insert_desc key x l).
Proof.
  induction 1 as [|y l Hl IH Hy]; simpl.
  - repeat constructor.
  - destruct (key y <=? key x) eqn:E.
    + apply Z.leb_le in E. constructor; [constructor; assumption|].
      constructor; [exact E|].
      eapply Forall_impl; [|exact Hy]. unfold desc_by. intros; lia.
    + apply Z.leb_gt in E. constructor; [exact IH|].
      eapply Permutation_Forall; [apply insert_desc_perm|].
      constructor; [unfold desc_by; lia | exact Hy].
Qed.

Lemma sort_desc_sorted l : StronglySorted (desc_by key) (sort_desc key l).
Proof.
  induction l; simpl; [constructor | now apply insert_desc_sorted].
Qed.

(** The computed order is one of the answers of [ORDER BY key DESC]. *)
Lemma sort_desc_orderBy l : orderBy_desc key l (sort_desc key l).
Proof. split; [apply sort_desc_perm | apply sort_desc_sorted]. Qed.

Lemma orderBy_desc_nil out : orderBy_desc key [] out -> out = [].
Proof. intros [H _]. now apply Permutation_nil. Qed.

Lemma orderBy_desc_length rows out :
  orderBy_desc key rows out -> length out = length rows.
Proof. intros [H _]. symmetry. now apply Permutation_length. Qed.

Lemma orderBy_desc_In rows out x :
  orderBy_desc key rows out -> (In x out <-> In x rows).
Proof.
  intros [H _]. split; intro Hx.
  - eapply Permutation_in; [symmetry; exact H | exact Hx].
  - eapply Permutation_in; [exact H | exact Hx].
Qed.

(** In an answer, a row never comes before a row with a larger key. *)
Lemma StronglySorted_nth (d : A) out :
  StronglySorted (desc_by key) out ->
  forall i j, (i < j < length out)%nat ->
    key (nth j out d) <= key (nth i out d).
Proof.
  induction 1 as [|x l Hl IH Hx]; intros i j Hij; simpl in Hij; [lia|].
  destruct j as [|j]; [lia|]. destruct i as [|i]; simpl.
  - rewrite Forall_forall in Hx. apply Hx. apply nth_In. lia.
  - apply IH. lia.
Qed.

End Ordering.

Section ListFacts.
Context {A B : Type}.

Lemma NoDup_snoc (l : list A) x : NoDup l -> ~ In x l -> NoDup (l ++ [x]).
Proof.
  intros Hl Hx. apply NoDup_app; [exact Hl | repeat constructor; intros [] |].
  intros a Ha [<-|[]]. now apply Hx.
Qed.

Lemma NoDup_map_filter (f : A -> B) (p : A -> bool) l :
  NoDup (map f l) -> NoDup (map f (filter p l)).
Proof.
  induction l as [|a l IH]; simpl; intro H; [constructor|].
  inversion H as [|? ? Hn Hl]; subst. destruct (p a); simpl; auto.
  constructor; auto. intro Hin. apply Hn.
  apply in_map_iff in Hin as (y & Hy & Hin). apply in_map_iff.
  exists y. split; auto. now apply filter_In in Hin.
Qed.

(** Rows with pairwise distinct keys: at most one row has a given key. *)
Lemma NoDup_map_count (f : A -> B) (p : A -> bool) (k : B) l :
  (forall a, p a = true -> f a = k) ->
  NoDup (map f l) -> (length (filter p l) <= 1)%nat.
Proof.
  intros Hp. induction l as [|a l IH]; simpl; intro H; [lia|].
  inversion H as [|? ? Hn Hl]; subst. destruct (p a) eqn:E; auto.
  simpl. destruct (filter p l) as [|b t] eqn:F; simpl; [lia|].
  exfalso. apply Hn. assert (Hb : In b (filter p l)) by (rewrite F; now left).
  apply filter_In in Hb as [Hb Hpb]. apply in_map_iff. exists b.
  split; auto. rewrite (Hp _ E), (Hp _ Hpb). reflexivity.
Qed.

Lemma find_none_filter (p : A -> bool) l : find p l = None <-> filter p l = [].
Proof.
  induction l as [|a l IH]; simpl; [tauto|].
  destruct (p a); [split; discriminate | exact IH].
Qed.

Lemma find_snoc_none (p : A -> bool) l x :
  find p l = None -> p x = true -> find p (l ++ [x]) = Some x.
Proof.
  induction l as [|a l IH]; simpl; intros H Hx; [now rewrite Hx|].
  destruct (p a); [discriminate | auto].
Qed.

Lemma find_app_some (p : A -> bool) l l' y :
  find p l = Some y -> find p (l ++ l') = Some y.
Proof.
  induction l as [|a l IH]; simpl; [discriminate|].
  destruct (p a); auto.
Qed.

Lemma filter_idem (p : A -> bool) l : filter p (filter p l) = filter p l.
Proof.
  induction l as [|a l IH]; simpl; auto.
  destruct (p a) eqn:E; simpl; rewrite ?E, IH; reflexivity.
Qed.

Lemma filter_none (p : A -> bool) l :
  (forall a, In a l -> p a = true) -> filter p l = l.
Proof.
  induction l as [|a l IH]; simpl; intro H; auto.
  rewrite (H a (or_introl eq_refl)), IH; auto.
Qed.

Lemma filter_negb_nil (p : A -> bool) l :
  filter p (filter (fun a => negb (p a)) l) = [].
Proof.
  induction l as [|a l IH]; simpl; auto.
  destruct (p a) eqn:E; simpl; rewrite ?E; auto.
Qed.

Lemma filter_comm (p q : A -> bool) l :
  filter p (filter q l) = filter q (filter p l).
Proof.
  induction l as [|a l IH]; simpl; auto.
  destruct (p a) eqn:P, (q a) eqn:Q; simpl; rewrite ?P, ?Q, IH; reflexivity.
Qed.

End ListFacts.

Lemma or_null_not_empty u : or_null u <> Some ""%string.
Proof.
  unfold or_null. destruct (truthy u) eqn:E; [|discriminate].
  intros ->. discriminate.
Qed.

Lemma empty_store_wf : store_wf empty_store.
Proof. repeat constructor. Qed.

Section Resolve.
Variables (s : Store) (body : LocationBody) (now : timestamp).

Lemma resolve_favorites :
  favoriteLocations (fst (resolveOrCreateLocation s body now)) = favoriteLocations s.
Proof.
  unfold resolveOrCreateLocation.
  destruct (findLocationByCoords s _ _); reflexivity.
Qed.

Lemma resolve_history :
  locationHistory (fst (resolveOrCreateLocation s body now)) = locationHistory s.
Proof.
  unfold resolveOrCreateLocation.
  destruct (findLocationByCoords s _ _); reflexivity.
Qed.

Lemma resolve_seqs :
  favoriteLocations_seq (fst (resolveOrCreateLocation s body now)) =
    favoriteLocations_seq s /\
  locationHistory_seq (fst (resolveOrCreateLocation s body now)) =
    locationHistory_seq s.
Proof.
  unfold resolveOrCreateLocation.
  destruct (findLocationByCoords s _ _); split; reflexivity.
Qed.

(** The resolved row is in the table afterwards, and it is the row that a
    lookup by the same coordinates finds. *)
Lemma resolve_find :
  findLocationByCoords (fst (resolveOrCreateLocation s body now))
    (body_lat body) (body_lon body) =
  Some (snd (resolveOrCreateLocation s body now)).
Proof.
  unfold resolveOrCreateLocation.
  destruct (findLocationByCoords s _ _) eqn:E; simpl; [exact E|].
  unfold findLocationByCoords in *. simpl.
  apply find_snoc_none; [exact E|]. simpl. now rewrite !Z.eqb_refl.
Qed.

Lemma resolve_In :
  In (snd (resolveOrCreateLocation s body now))
    (locations (fst (resolveOrCreateLocation s body now))).
Proof.
  pose proof resolve_find as H. apply find_some in H. tauto.
Qed.

Lemma resolve_has_location :
  has_location (fst (resolveOrCreateLocation s body now))
    (loc_id (snd (resolveOrCreateLocation s body now))).
Proof. apply in_map, resolve_In. Qed.

Lemma resolve_keeps_locations l :
  In l (locations s) ->
  In l (locations (fst (resolveOrCreateLocation s body now))).
Proof.
  unfold resolveOrCreateLocation.
  destruct (findLocationByCoords s _ _); simpl; auto.
  intro. apply in_or_app. now left.
Qed.

Lemma resolve_locations_wf :
  locations_wf s -> locations_wf (fst (resolveOrCreateLocation s body now)).
Proof.
  intros [Hids Hseq Hco]. unfold resolveOrCreateLocation.
  destruct (findLocationByCoords s _ _) eqn:E; simpl; [now constructor|].
  constructor; simpl.
  - rewrite map_app. apply NoDup_snoc; auto. simpl.
    intro Hin. apply in_map_iff in Hin as (l & Hl & Hin).
    rewrite Forall_forall in Hseq. specialize (Hseq _ Hin). lia.
  - apply Forall_app. split.
    + eapply Forall_impl; [|exact Hseq]. simpl. intros; lia.
    + repeat constructor. simpl. lia.
  - rewrite map_app. apply NoDup_snoc; auto. simpl.
    intro Hin. apply in_map_iff in Hin as (l & Hl & Hin).
    pose proof (find_none _ _ E _ Hin) as Hf. simpl in Hf.
    unfold loc_coords in Hl. inversion Hl as [[H1 H2]].
    rewrite H1, H2, !Z.eqb_refl in Hf. discriminate.
Qed.

End Resolve.

Lemma resolve_keeps_has_location s body now x :
  has_location s x -> has_location (fst (resolveOrCreateLocation s body now)) x.
Proof.
  unfold has_location. intro H. apply in_map_iff in H as (l & <- & Hl).
  apply in_map. now apply resolve_keeps_locations.
Qed.

Lemma resolve_wf s body now :
  store_wf s -> store_wf (fst (resolveOrCreateLocation s body now)).
Proof.
  intros [Hl [Hfk Hfp Hfu] [Hhk Hhp Hhu Hhi Hhs Hhc]].
  destruct (resolve_seqs s body now) as [_ Hseq].
  assert (Hkeep : forall x, has_location s x ->
            has_location (fst (resolveOrCreateLocation s body now)) x)
    by (intros; now apply resolve_keeps_has_location).
  constructor; [now apply resolve_locations_wf | constructor | constructor];
    rewrite ?resolve_favorites, ?resolve_history, ?Hseq; auto.
  - eapply Forall_impl; [|exact Hfk]. intros f. apply Hkeep.
  - eapply Forall_impl; [|exact Hhk]. intros h. apply Hkeep.
Qed.

(** ** The two [where] clauses, by key *)

Lemma favorite_matches_pair locationId userId f :
  favorite_matches locationId userId f = true <->
  fav_pair f = (locationId, or_null userId).
Proof.
  unfold favorite_matches, fav_pair.
  rewrite andb_true_iff, Z.eqb_eq, user_scope_true. split.
  - intros [-> ->]. reflexivity.
  - intros [= -> ->]. auto.
Qed.

Lemma history_matches_pair locationId userId h :
  history_matches locationId userId h = true <->
  hist_pair h = (locationId, or_null userId).
Proof.
  unfold history_matches, hist_pair.
  rewrite andb_true_iff, Z.eqb_eq, user_scope_true. split.
  - intros [-> ->]. reflexivity.
  - intros [= -> ->]. auto.
Qed.

Lemma favorites_of_matches s locationId userId :
  favorites_of s locationId (or_null userId) =
  filter (favorite_matches locationId userId) (favoriteLocations s).
Proof.
  unfold favorites_of. apply filter_ext. intro f. unfold favorite_matches.
  now rewrite user_scope_or_null.
Qed.

Lemma history_of_matches s locationId userId :
  history_of s locationId (or_null userId) =
  filter (history_matches locationId userId) (locationHistory s).
Proof.
  unfold history_of. apply filter_ext. intro h. unfold history_matches.
  now rewrite user_scope_or_null.
Qed.

Lemma isFavorite_false s locationId userId :
  isFavorite s locationId userId = false <->
  favorites_of s locationId (or_null userId) = [].
Proof.
  rewrite favorites_of_matches, <- find_none_filter. unfold isFavorite.
  destruct (find _ _); split; congruence.
Qed.

Lemma isFavorite_true s locationId userId :
  isFavorite s locationId userId = true <->
  exists f, In f (favoriteLocations s) /\
            fav_locationId f = locationId /\ fav_userId f = or_null userId.
Proof.
  unfold isFavorite. destruct (find _ _) as [f|] eqn:E; split; try congruence.
  - intros _. apply find_some in E as [Hin Hm]. exists f.
    apply favorite_matches_pair in Hm. inversion Hm. auto.
  - intros (f & Hin & H1 & H2). pose proof (find_none _ _ E _ Hin) as Hn.
    assert (favorite_matches locationId userId f = true) as Hm
      by (apply favorite_matches_pair; unfold fav_pair; congruence).
    congruence.
Qed.

(** ** Each handler keeps the store well formed *)

Lemma post_favorites_wf s body userId now :
  store_wf s -> store_wf (fst (post_favorites s body userId now)).
Proof.
  intro Hwf. unfold post_favorites.
  pose proof (resolve_wf s body now Hwf) as Hwf1.
  pose proof (resolve_has_location s body now) as Hloc.
  destruct (resolveOrCreateLocation s body now) as [s1 location]; simpl in *.
  destruct (isFavorite s1 (loc_id location) userId) eqn:E; simpl; [exact Hwf1|].
  destruct Hwf1 as [Hl [Hfk Hfp Hfu] [Hhk Hhp Hhu Hhi Hhs Hhc]].
  constructor; [destruct Hl; now constructor | constructor | now constructor];
    simpl.
  - apply Forall_app. split; [exact Hfk | repeat constructor; exact Hloc].
  - rewrite map_app. apply NoDup_snoc; [exact Hfp|]. simpl.
    intro Hin. apply in_map_iff in Hin as (f & Hf & Hin).
    apply favorite_matches_pair in Hf. simpl in Hf. pose proof E as E'.
    unfold isFavorite in E'. destruct (find _ _) eqn:F; [discriminate|].
    rewrite (find_none _ _ F _ Hin) in Hf. discriminate.
  - apply Forall_app. split; [exact Hfu|]. repeat constructor. simpl.
    apply or_null_not_empty.
Qed.

Lemma removeFavorite_wf s locationId userId :
  store_wf s -> store_wf (removeFavorite s locationId userId).
Proof.
  intros [Hl [Hfk Hfp Hfu] Hh].
  constructor; [destruct Hl; now constructor | constructor
               | destruct Hh; now constructor]; simpl.
  - apply incl_Forall with (2 := Hfk). apply incl_filter.
  - now apply NoDup_map_filter.
  - apply incl_Forall with (2 := Hfu). apply incl_filter.
Qed.

Lemma update_history_pair id c t h : hist_pair (update_history id c t h) = hist_pair h.
Proof. unfold update_history. destruct (_ =? _); reflexivity. Qed.

Lemma update_history_id id c t h : hist_id (update_history id c t h) = hist_id h.
Proof. unfold update_history. destruct (_ =? _); reflexivity. Qed.

Lemma update_history_locationId id c t h :
  hist_locationId (update_history id c t h) = hist_locationId h.
Proof. unfold update_history. destruct (_ =? _); reflexivity. Qed.

Lemma update_history_userId id c t h :
  hist_userId (update_history id c t h) = hist_userId h.
Proof. unfold update_history. destruct (_ =? _); reflexivity. Qed.

Lemma addToHistory_wf s locationId userId now :
  store_wf s -> has_location s locationId ->
  store_wf (addToHistory s locationId userId now).
Proof.
  intros [Hl Hf [Hhk Hhp Hhu Hhi Hhs Hhc]] Hloc. unfold addToHistory.
  destruct (find _ _) as [e|] eqn:E.
  - constructor; [destruct Hl; now constructor | destruct Hf; now constructor|].
    constructor; simpl.
    + apply Forall_map. eapply Forall_impl; [|exact Hhk]. simpl. intros h Hh.
      now rewrite update_history_locationId.
    + rewrite map_map. erewrite map_ext; [exact Hhp|].
      intro. apply update_history_pair.
    + apply Forall_map. eapply Forall_impl; [|exact Hhu]. simpl. intros h Hh.
      now rewrite update_history_userId.
    + rewrite map_map. erewrite map_ext; [exact Hhi|].
      intro. apply update_history_id.
    + apply Forall_map. eapply Forall_impl; [|exact Hhs]. simpl. intros h Hh.
      now rewrite update_history_id.
    + apply Forall_map. rewrite Forall_forall in Hhc |- *. intros h Hh.
      unfold update_history. destruct (_ =? _); simpl; [|now apply Hhc].
      apply find_some in E as [Hin _]. specialize (Hhc _ Hin). lia.
  - constructor; [destruct Hl; now constructor | destruct Hf; now constructor|].
    constructor; simpl.
    + apply Forall_app. split; [exact Hhk | repeat constructor; exact Hloc].
    + rewrite map_app. apply NoDup_snoc; [exact Hhp|]. simpl.
      intro Hin. apply in_map_iff in Hin as (h & Hh & Hin).
      apply history_matches_pair in Hh. simpl in Hh.
      rewrite (find_none _ _ E _ Hin) in Hh. discriminate.
    + apply Forall_app. split; [exact Hhu|]. repeat constructor. simpl.
      apply or_null_not_empty.
    + rewrite map_app. apply NoDup_snoc; [exact Hhi|]. simpl.
      intro Hin. apply in_map_iff in Hin as (h & Hh & Hin).
      rewrite Forall_forall in Hhs. specialize (Hhs _ Hin). lia.
    + apply Forall_app. split.
      * eapply Forall_impl; [|exact Hhs]. simpl. intros; lia.
      * repeat constructor. simpl. lia.
    + apply Forall_app. split; [exact Hhc|]. repeat constructor. simpl. lia.
Qed.

Lemma post_history_wf s body userId now :
  store_wf s -> store_wf (fst (post_history s body userId now)).
Proof.
  intro Hwf. unfold post_history.
  pose proof (resolve_wf s body now Hwf) as Hwf1.
  pose proof (resolve_has_location s body now) as Hloc.
  destruct (resolveOrCreateLocation s body now) as [s1 location]; simpl in *.
  now apply addToHistory_wf.
Qed.

Lemma clearHistory_wf s userId : store_wf s -> store_wf (clearHistory s userId).
Proof.
  intros [Hl Hf [Hhk Hhp Hhu Hhi Hhs Hhc]].
  constructor; [destruct Hl; now constructor | destruct Hf; now constructor|].
  constructor; simpl; try (now apply NoDup_map_filter);
    (eapply incl_Forall; [apply incl_filter | assumption]).
Qed.

Lemma handle_wf s r now : store_wf s -> store_wf (handle s r now).
Proof.
  destruct r; simpl; intro H.
  - now apply post_favorites_wf.
  - now apply removeFavorite_wf.
  - now apply post_history_wf.
  - now apply clearHistory_wf.
Qed.

Lemma reachable_wf s : reachable s -> store_wf s.
Proof.
  induction 1; [apply empty_store_wf | now apply handle_wf].
Qed.

Lemma reachable_run s reqs : reachable s -> reachable (run s reqs).
Proof.
  revert s. induction reqs as [|[r now] reqs IH]; simpl; intros s H; auto.
  apply IH. now constructor.
Qed.

(** * The ledgers hold one row per pair *)

(** In a sequential execution the registry holds one row per coordinate pair. *)
Lemma reachable_one_location_per_coords s lat lon :
  reachable s -> (length (locations_at s lat lon) <= 1)%nat.
Proof.
  intro H. unfold locations_at. apply reachable_wf in H. destruct H as [[_ _ Hco] _ _].
  apply NoDup_map_count with (f := loc_coords) (k := (lat, lon)); auto.
  intros l Hl. apply andb_true_iff in Hl as [H1 H2].
  apply Z.eqb_eq in H1, H2. unfold loc_coords. congruence.
Qed.

(** C1. In every store that the handlers (add favorite, remove favorite, add
    history, clear history) produce from the empty store, run one after the
    other, [favorite_locations] holds at most one row and [location_history]
    holds at most one row for each pair of a location id and an identity. *)
Theorem reachable_at_most_one_row_per_pair s :
  reachable s ->
  forall locationId userId,
    (length (favorites_of s locationId userId) <= 1)%nat /\
    (length (history_of s locationId userId) <= 1)%nat.
Proof.
  intros H locationId userId. apply reachable_wf in H.
  destruct H as [_ [_ Hfp _] [_ Hhp _ _ _ _]]. split.
  - apply NoDup_map_count with (f := fav_pair) (k := (locationId, userId)); auto.
    intros f Hf. apply andb_true_iff in Hf as [H1 H2].
    apply Z.eqb_eq in H1. apply userId_eqb_eq in H2. unfold fav_pair. congruence.
  - apply NoDup_map_count with (f := hist_pair) (k := (locationId, userId)); auto.
    intros h Hh. apply andb_true_iff in Hh as [H1 H2].
    apply Z.eqb_eq in H1. apply userId_eqb_eq in H2. unfold hist_pair. congruence.
Qed.

Lemma reachable_at_most_one_row_per_pair_witness :
  (length (favorites_of (run empty_store busy_requests) 1 None) <= 1)%nat /\
  (length (history_of (run empty_store busy_requests) 1 None) <= 1)%nat.
Proof.
  apply (reachable_at_most_one_row_per_pair (run empty_store busy_requests)).
  apply reachable_run, reachable_empty.
Defined.

(** * Resolving a location twice *)

Lemma findLocationByCoords_locations s s' lat lon :
  locations s' = locations s ->
  findLocationByCoords s' lat lon = findLocationByCoords s lat lon.
Proof. unfold findLocationByCoords. now intros ->. Qed.

Lemma resolve_found s body now location :
  findLocationByCoords s (body_lat body) (body_lon body) = Some location ->
  resolveOrCreateLocation s body now = (s, location).
Proof. unfold resolveOrCreateLocation. now intros ->. Qed.

Lemma post_favorites_locations s body userId now :
  locations (fst (post_favorites s body userId now)) =
    locations (fst (resolveOrCreateLocation s body now)) /\
  locations_seq (fst (post_favorites s body userId now)) =
    locations_seq (fst (resolveOrCreateLocation s body now)).
Proof.
  unfold post_favorites.
  destruct (resolveOrCreateLocation s body now) as [s1 location]; simpl.
  destruct (isFavorite s1 (loc_id location) userId); split; reflexivity.
Qed.

Lemma addToHistory_locations s locationId userId now :
  locations (addToHistory s locationId userId now) = locations s /\
  locations_seq (addToHistory s locationId userId now) = locations_seq s /\
  favoriteLocations (addToHistory s locationId userId now) = favoriteLocations s /\
  favoriteLocations_seq (addToHistory s locationId userId now) =
    favoriteLocations_seq s.
Proof.
  unfold addToHistory. destruct (find _ _); repeat split; reflexivity.
Qed.

Lemma post_history_locations s body userId now :
  locations (fst (post_history s body userId now)) =
    locations (fst (resolveOrCreateLocation s body now)) /\
  locations_seq (fst (post_history s body userId now)) =
    locations_seq (fst (resolveOrCreateLocation s body now)).
Proof.
  unfold post_history.
  destruct (resolveOrCreateLocation s body now) as [s1 location]; simpl.
  destruct (addToHistory_locations s1 (loc_id location) (or_null userId) now)
    as (H1 & H2 & _). now rewrite H1, H2.
Qed.

Lemma post_history_location s body userId now :
  snd (post_history s body userId now) = snd (resolveOrCreateLocation s body now).
Proof.
  unfold post_history. now destruct (resolveOrCreateLocation s body now).
Qed.

Lemma after_first_post_locations s body now s1 :
  after_first_post s body now s1 ->
  locations s1 = locations (fst (resolveOrCreateLocation s body now)).
Proof.
  intros [->|[[u ->]|[u ->]]]; auto.
  - apply post_favorites_locations.
  - apply post_history_locations.
Qed.

(** After either POST handler, resolving the same coordinates finds the row
    that the handler resolved and changes nothing. *)
Lemma resolve_again s body1 body2 now1 now2 s1 :
  body_lat body2 = body_lat body1 ->
  body_lon body2 = body_lon body1 ->
  after_first_post s body1 now1 s1 ->
  resolveOrCreateLocation s1 body2 now2 =
  (s1, snd (resolveOrCreateLocation s body1 now1)).
Proof.
  intros Hlat Hlon Hs1. apply resolve_found. rewrite Hlat, Hlon.
  rewrite (findLocationByCoords_locations _ s1 _ _
             (after_first_post_locations _ _ _ _ Hs1)).
  apply resolve_find.
Qed.

(** C2. Resolve-or-create, run twice in a row with the same coordinates (as
    the first step of add favorite or of add history, with any names and
    identities), resolves to the same [locations] row both times, hence to the
    same id, and the second run leaves the store as it found it: it inserts
    no row into [locations]. *)
Theorem resolveOrCreateLocation_twice s body1 body2 now1 now2 s1 :
  body_lat body2 = body_lat body1 ->
  body_lon body2 = body_lon body1 ->
  after_first_post s body1 now1 s1 ->
  let location1 := snd (resolveOrCreateLocation s body1 now1) in
  resolveOrCreateLocation s1 body2 now2 = (s1, location1) /\
  loc_id (snd (resolveOrCreateLocation s1 body2 now2)) = loc_id location1 /\
  (forall userId,
     locations (fst (post_favorites s1 body2 userId now2)) = locations s1 /\
     locations (fst (post_history s1 body2 userId now2)) = locations s1 /\
     snd (post_history s1 body2 userId now2) = location1).
Proof.
  intros Hlat Hlon Hs1 location1.
  assert (Hres : resolveOrCreateLocation s1 body2 now2 = (s1, location1))
    by (now apply resolve_again).
  split; [exact Hres|]. split; [now rewrite Hres|]. intro userId.
  destruct (post_favorites_locations s1 body2 userId now2) as [Hf _].
  destruct (post_history_locations s1 body2 userId now2) as [Hh _].
  rewrite Hf, Hh, post_history_location, Hres. auto.
Qed.

Lemma resolveOrCreateLocation_twice_witness :
  resolveOrCreateLocation (fst (post_history empty_store paris None 100))
    paris 200 =
  (fst (post_history empty_store paris None 100),
   snd (resolveOrCreateLocation empty_store paris 100)).
Proof.
  apply (resolveOrCreateLocation_twice empty_store paris paris 100 200
           (fst (post_history empty_store paris None 100))).
  - reflexivity.
  - reflexivity.
  - right. right. exists None. reflexivity.
Defined.

(** * Recording a visit *)

Lemma find_head_filter {A : Type} (p : A -> bool) l :
  find p l = hd_error (filter p l).
Proof.
  induction l as [|a l IH]; simpl; auto. destruct (p a); auto.
Qed.

Lemma NoDup_map_inj {A B : Type} (f : A -> B) l a b :
  NoDup (map f l) -> In a l -> In b l -> f a = f b -> a = b.
Proof.
  induction l as [|x l IH]; simpl; intros H Ha Hb E; [tauto|].
  inversion H as [|? ? Hn Hl]; subst.
  destruct Ha as [->|Ha], Hb as [->|Hb]; auto.
  - exfalso. apply Hn. rewrite E. now apply in_map.
  - exfalso. apply Hn. rewrite <- E. now apply in_map.
Qed.

Lemma history_matches_update locationId userId id c t h :
  history_matches locationId userId (update_history id c t h) =
  history_matches locationId userId h.
Proof.
  unfold history_matches.
  now rewrite update_history_locationId, update_history_userId.
Qed.

Lemma update_history_self e c t :
  update_history (hist_id e) c t e =
  {| hist_id := hist_id e; hist_locationId := hist_locationId e;
     hist_userId := hist_userId e; hist_visitCount := c;
     hist_lastVisited := t |}.
Proof. unfold update_history. now rewrite Z.eqb_refl. Qed.

Section RecordVisit.
Variables (s : Store) (locationId : Z) (userId : option string).
Variable now : timestamp.

(** A visit when the pair has a row: the first such row [e] is the one
    found; no row is added; every row of the pair that carries [e]'s id
    gets [e]'s count plus one and the new time. *)
Lemma addToHistory_existing e rest :
  history_of s locationId (or_null userId) = e :: rest ->
  length (locationHistory (addToHistory s locationId userId now)) =
    length (locationHistory s) /\
  locationHistory_seq (addToHistory s locationId userId now) =
    locationHistory_seq s /\
  history_of (addToHistory s locationId userId now) locationId
    (or_null userId) =
    visited e now ::
    map (update_history (hist_id e) (hist_visitCount e + 1) now) rest.
Proof.
  intro H. rewrite history_of_matches in *. unfold addToHistory.
  rewrite find_head_filter, H. simpl. rewrite length_map.
  repeat split. rewrite filter_map_swap.
  rewrite (filter_ext _ _ (history_matches_update locationId userId _ _ _)).
  rewrite H. simpl. now rewrite update_history_self.
Qed.

(** In a well-formed store that row is the only one that changes. *)
Lemma addToHistory_existing_wf e rest :
  store_wf s ->
  history_of s locationId (or_null userId) = e :: rest ->
  rest = [] /\
  history_of (addToHistory s locationId userId now) locationId (or_null userId) = [visited e now] /\
  filter (fun h => negb (history_matches locationId userId h))
    (locationHistory (addToHistory s locationId userId now)) =
  filter (fun h => negb (history_matches locationId userId h))
    (locationHistory s).
Proof.
  intros Hwf H.
  assert (Hrest : rest = []).
  { destruct Hwf as [_ _ [_ Hhp _ _ _ _]].
    assert (Hlen : (length (history_of s locationId (or_null userId)) <= 1)%nat).
    { apply NoDup_map_count with (f := hist_pair)
        (k := (locationId, or_null userId)); auto.
      intros h Hh. apply andb_true_iff in Hh as [H1 H2].
      apply Z.eqb_eq in H1. apply userId_eqb_eq in H2.
      unfold hist_pair. congruence. }
    rewrite H in Hlen. destruct rest; [reflexivity | simpl in Hlen; lia]. }
  split; [exact Hrest|]. subst rest.
  destruct (addToHistory_existing e [] H) as (_ & _ & Hrow).
  split; [exact Hrow|].
  assert (He : In e (locationHistory s) /\
               history_matches locationId userId e = true).
  { rewrite history_of_matches in H.
    apply filter_In. rewrite H. now left. }
  rewrite history_of_matches in H. unfold addToHistory.
  rewrite find_head_filter, H. simpl. rewrite filter_map_swap.
  rewrite (filter_ext _ _
             (fun h => f_equal negb
                (history_matches_update locationId userId _ _ _ h))).
  rewrite <- map_id. apply map_ext_in. intros h Hh.
  apply filter_In in Hh as [Hin Hm]. unfold update_history.
  destruct (hist_id h =? hist_id e) eqn:E; auto.
  apply Z.eqb_eq in E. destruct Hwf as [_ _ [_ _ _ Hhi _ _]].
  assert (h = e) by (eapply NoDup_map_inj; eauto; tauto). subst h.
  destruct He as [_ He]. rewrite He in Hm. discriminate.
Qed.

(** A visit when the pair has no row: one row is appended, with count 1. *)
Lemma addToHistory_first :
  history_of s locationId (or_null userId) = [] ->
  locationHistory (addToHistory s locationId userId now) =
    locationHistory s ++ [first_visit s locationId userId now] /\
  history_of (addToHistory s locationId userId now) locationId (or_null userId) =
    [first_visit s locationId userId now].
Proof.
  intro H. rewrite history_of_matches in *. unfold addToHistory.
  apply find_none_filter in H as F. rewrite F.
  fold (first_visit s locationId userId now). cbn [locationHistory].
  split; auto. rewrite filter_app, H. cbn [filter app].
  assert (history_matches locationId userId
            (first_visit s locationId userId now) = true) as ->
    by (apply history_matches_pair; reflexivity).
  reflexivity.
Qed.

End RecordVisit.

(** Three visits in a row to a pair that had no row. *)
Lemma addToHistory_three_visits s locationId userId t1 t2 t3 :
  history_of s locationId (or_null userId) = [] ->
  history_of
    (addToHistory
       (addToHistory (addToHistory s locationId userId t1) locationId userId t2)
       locationId userId t3)
    locationId (or_null userId) =
  [ {| hist_id := locationHistory_seq s;
       hist_locationId := locationId;
       hist_userId := or_null userId;
       hist_visitCount := 3;
       hist_lastVisited := t3 |} ].
Proof.
  intro H.
  destruct (addToHistory_first s locationId userId t1 H) as [_ H1].
  destruct (addToHistory_existing _ locationId userId t2 _ _ H1) as (_ & _ & H2).
  destruct (addToHistory_existing _ locationId userId t3 _ _ H2) as (_ & _ & H3).
  rewrite H3. reflexivity.
Qed.

(** C3. [addToHistory] is an upsert on the pair (location id, identity), in a
    store that satisfies its keys and for a location id that has its row.
    If the pair has a row [e] whose count is below the largest [integer], it
    is the pair's only row, no row is added, the pair's row becomes [e] with
    [hist_visitCount e + 1] and the time of the call, and no other row
    changes.  If the pair has no row, one row with count 1 and the time of
    the call is added to the table and is then the pair's only row.  Hence
    three visits in a row to a pair without a row leave exactly one row for
    the pair, with count 3 and the time of the third call. *)
Theorem addToHistory_upsert s locationId userId now :
  store_wf s ->
  has_location s locationId ->
  (forall e rest,
     history_of s locationId (or_null userId) = e :: rest ->
     hist_visitCount e < 2147483647 ->
     rest = [] /\
     length (locationHistory (addToHistory s locationId userId now)) =
       length (locationHistory s) /\
     history_of (addToHistory s locationId userId now) locationId
       (or_null userId) =
       [ {| hist_id := hist_id e;
            hist_locationId := locationId;
            hist_userId := or_null userId;
            hist_visitCount := hist_visitCount e + 1;
            hist_lastVisited := now |} ] /\
     in_int32 (hist_visitCount e + 1) = true /\
     filter (fun h => negb (history_matches locationId userId h))
       (locationHistory (addToHistory s locationId userId now)) =
     filter (fun h => negb (history_matches locationId userId h))
       (locationHistory s)) /\
  (history_of s locationId (or_null userId) = [] ->
   Permutation (locationHistory (addToHistory s locationId userId now))
     ({| hist_id := locationHistory_seq s;
         hist_locationId := locationId;
         hist_userId := or_null userId;
         hist_visitCount := 1;
         hist_lastVisited := now |} :: locationHistory s) /\
   history_of (addToHistory s locationId userId now) locationId
     (or_null userId) =
     [ {| hist_id := locationHistory_seq s;
          hist_locationId := locationId;
          hist_userId := or_null userId;
          hist_visitCount := 1;
          hist_lastVisited := now |} ] /\
   forall t2 t3,
     history_of
       (addToHistory
          (addToHistory (addToHistory s locationId userId now)
             locationId userId t2) locationId userId t3)
       locationId (or_null userId) =
     [ {| hist_id := locationHistory_seq s;
          hist_locationId := locationId;
          hist_userId := or_null userId;
          hist_visitCount := 3;
          hist_lastVisited := t3 |} ]).
Proof.
  intros Hwf Hloc. split.
  - intros e rest H Hc.
    destruct (addToHistory_existing s locationId userId now e rest H)
      as (Hlen & _ & _).
    destruct (addToHistory_existing_wf s locationId userId now e rest Hwf H)
      as (Hrest & H1 & H2).
    assert (He : In e (history_of s locationId (or_null userId)))
      by (rewrite H; now left).
    apply filter_In in He as [Hin He].
    apply andb_true_iff in He as [He1 He2].
    apply Z.eqb_eq in He1. apply userId_eqb_eq in He2.
    assert (Hone : 1 <= hist_visitCount e).
    { destruct Hwf as [_ _ [_ _ _ _ _ Hcount]].
      rewrite Forall_forall in Hcount. now apply Hcount. }
    split; [exact Hrest|]. split; [exact Hlen|]. split.
    + rewrite H1. unfold visited. now rewrite He1, He2.
    + split; [|exact H2].
      unfold in_int32, int32_min, int32_max in *.
      apply andb_true_iff. split; apply Z.leb_le; lia.
  - intro H.
    destruct (addToHistory_first s locationId userId now H) as [H1 H2].
    split.
    { rewrite H1. apply Permutation_sym, Permutation_cons_append. }
    split; [exact H2|]. intros t2 t3.
    now apply addToHistory_three_visits.
Qed.

Lemma addToHistory_upsert_witness :
  history_of (addToHistory one_visit 1 None 200) 1 None =
    [ {| hist_id := 1; hist_locationId := 1; hist_userId := None;
         hist_visitCount := 2; hist_lastVisited := 200 |} ] /\
  history_of
    (addToHistory
       (addToHistory (addToHistory new_york_favorite 1 u1 100) 1 u1 200)
       1 u1 300) 1 u1 =
    [ {| hist_id := 1; hist_locationId := 1; hist_userId := u1;
         hist_visitCount := 3; hist_lastVisited := 300 |} ].
Proof.
  split.
  - assert (Hwf : store_wf one_visit).
    { apply reachable_wf.
      apply (reachable_handle empty_store (AddHistory paris None) 100).
      apply reachable_empty. }
    assert (Hloc : has_location one_visit 1) by (now left).
    destruct (addToHistory_upsert one_visit 1 None 200 Hwf Hloc) as [H _].
    destruct (H {| hist_id := 1; hist_locationId := 1; hist_userId := None;
                   hist_visitCount := 1; hist_lastVisited := 100 |} []
                eq_refl eq_refl) as (_ & _ & Hrow & _).
    exact Hrow.
  - assert (Hwf : store_wf new_york_favorite).
    { apply reachable_wf.
      apply (reachable_handle empty_store (AddFavorite new_york u1) 5).
      apply reachable_empty. }
    assert (Hloc : has_location new_york_favorite 1) by (now left).
    destruct (addToHistory_upsert new_york_favorite 1 u1 100 Hwf Hloc)
      as [_ H].
    destruct (H eq_refl) as (_ & _ & H3). apply (H3 200 300).
Defined.

(** The scenario of the specification: two add-history requests for Paris
    without an identity create location 1 and one history row, which the
    second request brings to count 2. *)
Example post_history_paris_twice :
  run empty_store [(AddHistory paris None, 100); (AddHistory paris None, 200)] =
  {| locations :=
       [ {| loc_id := 1; loc_name := "Paris"; loc_country := "FR";
            loc_state := None; loc_lat := 488566; loc_lon := 23522;
            loc_createdAt := 100; loc_updatedAt := 100 |} ];
     favoriteLocations := [];
     locationHistory :=
       [ {| hist_id := 1; hist_locationId := 1; hist_userId := None;
            hist_visitCount := 2; hist_lastVisited := 200 |} ];
     locations_seq := 2;
     favoriteLocations_seq := 1;
     locationHistory_seq := 2 |}.
Proof. reflexivity. Qed.

(** * Favorites: add, check, remove *)

Lemma store_eta s :
  {| locations := locations s;
     favoriteLocations := favoriteLocations s;
     locationHistory := locationHistory s;
     locations_seq := locations_seq s;
     favoriteLocations_seq := favoriteLocations_seq s;
     locationHistory_seq := locationHistory_seq s |} = s.
Proof. now destruct s. Qed.

(** The insert that the handler issues is found by the check. *)
Lemma isFavorite_addFavorite s locationId userId now :
  isFavorite
    (fst (addFavorite s {| ins_fav_locationId := locationId;
                           ins_fav_userId := or_null userId |} now))
    locationId userId = true.
Proof.
  apply isFavorite_true. eexists. split.
  - simpl. apply in_or_app. right. left. reflexivity.
  - split; reflexivity.
Qed.

Lemma isFavorite_removeFavorite s locationId userId :
  isFavorite (removeFavorite s locationId userId) locationId userId = false.
Proof.
  apply isFavorite_false. rewrite favorites_of_matches. simpl.
  apply filter_negb_nil.
Qed.

(** After the add-favorite handler, with either answer, the pair is a
    favorite. *)
Lemma isFavorite_post_favorites s body userId now :
  isFavorite (fst (post_favorites s body userId now))
    (loc_id (snd (resolveOrCreateLocation s body now))) userId = true.
Proof.
  unfold post_favorites.
  destruct (resolveOrCreateLocation s body now) as [s1 location]; simpl.
  destruct (isFavorite s1 (loc_id location) userId) eqn:E; simpl; [exact E|].
  apply isFavorite_addFavorite.
Qed.

(** When the handler adds, the new row is the only row of its pair. *)
Lemma post_favorites_added s body userId now location favorite :
  snd (post_favorites s body userId now) = FavoriteAdded location favorite ->
  location = snd (resolveOrCreateLocation s body now) /\
  fav_pair favorite = (loc_id location, or_null userId) /\
  fav_createdAt favorite = now /\
  favoriteLocations (fst (post_favorites s body userId now)) =
    favoriteLocations s ++ [favorite] /\
  favorites_of s (loc_id location) (or_null userId) = [] /\
  favorites_of (fst (post_favorites s body userId now)) (loc_id location)
    (or_null userId) = [favorite].
Proof.
  unfold post_favorites.
  pose proof (resolve_favorites s body now) as Hfav.
  destruct (resolveOrCreateLocation s body now) as [s1 l]; simpl in *.
  destruct (isFavorite s1 (loc_id l) userId) eqn:E; simpl; [discriminate|].
  intros [= <- <-]. apply isFavorite_false in E.
  repeat split; try reflexivity.
  - now rewrite Hfav.
  - unfold favorites_of in *. now rewrite <- Hfav.
  - unfold favorites_of in *. simpl. rewrite filter_app, E. simpl.
    now rewrite Z.eqb_refl, userId_eqb_refl.
Qed.

Lemma post_favorites_after_first s body userId now :
  after_first_post s body now (fst (post_favorites s body userId now)).
Proof. right. left. now exists userId. Qed.

(** A second add-favorite for the same coordinates and identity is refused
    and leaves the store alone. *)
Lemma post_favorites_again s body1 body2 userId now1 now2 :
  body_lat body2 = body_lat body1 ->
  body_lon body2 = body_lon body1 ->
  post_favorites (fst (post_favorites s body1 userId now1)) body2 userId now2 =
  (fst (post_favorites s body1 userId now1), AlreadyFavorited).
Proof.
  intros Hlat Hlon. unfold post_favorites at 1.
  rewrite (resolve_again s body1 body2 now1 now2 _ Hlat Hlon
             (post_favorites_after_first s body1 userId now1)).
  now rewrite isFavorite_post_favorites.
Qed.

(** ** The joined rows of one identity *)

Lemma filter_by_id_unique (locs : list Location) l :
  NoDup (map loc_id locs) -> In l locs ->
  filter (fun x => loc_id l =? loc_id x) locs = [l].
Proof.
  induction locs as [|a locs IH]; simpl; intros Hnd Hin; [tauto|].
  inversion Hnd as [|? ? Hn Hl]; subst. destruct Hin as [->|Hin].
  - rewrite Z.eqb_refl. f_equal. apply find_none_filter.
    destruct (find _ locs) as [y|] eqn:F; auto. exfalso.
    apply find_some in F as [Hy Hid]. apply Z.eqb_eq in Hid.
    apply Hn. rewrite Hid. now apply in_map.
  - destruct (loc_id l =? loc_id a) eqn:E; [|auto].
    exfalso. apply Z.eqb_eq in E. apply Hn. rewrite <- E. now apply in_map.
Qed.

(** With primary and foreign keys in force a join row is a ledger row. *)
Lemma innerJoin_length {A : Type} (locationId : A -> Z) rows locs :
  NoDup (map loc_id locs) ->
  Forall (fun r => In (locationId r) (map loc_id locs)) rows ->
  map fst (innerJoin locationId rows locs) = rows.
Proof.
  intros Hnd. induction 1 as [|r rows Hr _ IH]; simpl; auto.
  rewrite map_app, IH. apply in_map_iff in Hr as (l & Hl & Hin).
  rewrite <- Hl, (filter_by_id_unique _ _ Hnd Hin). reflexivity.
Qed.

Lemma innerJoin_In {A : Type} (locationId : A -> Z) rows locs r l :
  In (r, l) (innerJoin locationId rows locs) <->
  In r rows /\ In l locs /\ loc_id l = locationId r.
Proof.
  unfold innerJoin. rewrite in_flat_map. split.
  - intros (x & Hx & Hin). apply in_map_iff in Hin as (y & [= <- <-] & Hy).
    apply filter_In in Hy as [Hy E]. apply Z.eqb_eq in E. auto.
  - intros (Hr & Hl & E). exists r. split; auto. apply in_map.
    apply filter_In. split; auto. apply Z.eqb_eq. auto.
Qed.

Lemma filter_map_fst {A B : Type} (p : A -> bool) (l : list (A * B)) :
  map fst (filter (fun x => p (fst x)) l) = filter p (map fst l).
Proof.
  induction l as [|a l IH]; simpl; auto.
  destruct (p (fst a)); simpl; now rewrite IH.
Qed.

Lemma favorite_rows_fst s userId :
  store_wf s ->
  map fst (favorite_rows s userId) =
  filter (fun f => user_scope userId (fav_userId f)) (favoriteLocations s).
Proof.
  intros [[Hids _ _] [Hfk _ _] _]. unfold favorite_rows.
  rewrite (filter_map_fst (fun f => user_scope userId (fav_userId f))).
  now rewrite innerJoin_length.
Qed.

Lemma history_rows_fst s userId :
  store_wf s ->
  map fst (history_rows s userId) =
  filter (fun h => user_scope userId (hist_userId h)) (locationHistory s).
Proof.
  intros [[Hids _ _] _ [Hhk _ _ _ _ _]]. unfold history_rows.
  rewrite (filter_map_fst (fun h => user_scope userId (hist_userId h))).
  now rewrite innerJoin_length.
Qed.

Lemma getFavoriteLocations_returns_length s userId favorites :
  getFavoriteLocations_returns s userId favorites ->
  length favorites = length (favorite_rows s userId).
Proof.
  intros (rows & Hord & ->). rewrite length_map.
  now apply orderBy_desc_length in Hord.
Qed.

(** The number of favorites that any answer lists for an identity. *)
Lemma getFavoriteLocations_count s userId favorites :
  store_wf s ->
  getFavoriteLocations_returns s userId favorites ->
  length favorites =
  length (filter (fun f => user_scope userId (fav_userId f))
            (favoriteLocations s)).
Proof.
  intros Hwf H. rewrite (getFavoriteLocations_returns_length _ _ _ H).
  now rewrite <- favorite_rows_fst, length_map.
Qed.

(** A request for a pair that is already a favorite is refused and leaves
    the store alone. *)
Lemma post_favorites_already s body userId now location :
  findLocationByCoords s (body_lat body) (body_lon body) = Some location ->
  isFavorite s (loc_id location) userId = true ->
  post_favorites s body userId now = (s, AlreadyFavorited).
Proof.
  intros Hfind Hfav. unfold post_favorites.
  rewrite (resolve_found s body now location Hfind). now rewrite Hfav.
Qed.

(** The computed lists are answers of the two queries. *)
Lemma getFavoriteLocations_answer s userId :
  getFavoriteLocations_returns s userId (getFavoriteLocations s userId).
Proof. eexists. split; [apply sort_desc_orderBy | reflexivity]. Qed.

Lemma getLocationHistory_answer s userId limit :
  getLocationHistory_returns s userId limit (getLocationHistory s userId limit).
Proof. eexists. split; [apply sort_desc_orderBy | reflexivity]. Qed.

(** C4. A second add-favorite in a row for the same coordinates and identity
    answers AlreadyFavorited and returns the store it was given: no row is
    inserted.  When the first request added the favorite, the two answers
    differ (the request is not idempotent in its answer), the pair keeps its
    single row, and in a well-formed store every listing of the identity's
    favorites has one element more than before the first request and as many
    after the second request as after the first: one, if there was none.
    More generally, a request whose coordinates resolve to a location that
    the identity has as a favorite is refused and the store is unchanged. *)
Theorem post_favorites_twice s body1 body2 userId now1 now2 :
  body_lat body2 = body_lat body1 ->
  body_lon body2 = body_lon body1 ->
  snd (post_favorites (fst (post_favorites s body1 userId now1))
         body2 userId now2) = AlreadyFavorited /\
  fst (post_favorites (fst (post_favorites s body1 userId now1))
         body2 userId now2) = fst (post_favorites s body1 userId now1) /\
  (forall location favorite,
     snd (post_favorites s body1 userId now1) = FavoriteAdded location favorite ->
     snd (post_favorites (fst (post_favorites s body1 userId now1))
            body2 userId now2) <> snd (post_favorites s body1 userId now1) /\
     favorites_of
       (fst (post_favorites (fst (post_favorites s body1 userId now1))
               body2 userId now2))
       (loc_id location) (or_null userId) = [favorite] /\
     (store_wf s ->
      forall before after_first after_second,
        get_favorites_returns s userId before ->
        get_favorites_returns (fst (post_favorites s body1 userId now1))
          userId after_first ->
        get_favorites_returns
          (fst (post_favorites (fst (post_favorites s body1 userId now1))
                  body2 userId now2)) userId after_second ->
        length after_first = S (length before) /\
        length after_second = length after_first)) /\
  (forall location,
     findLocationByCoords s (body_lat body1) (body_lon body1) = Some location ->
     isFavorite s (loc_id location) userId = true ->
     post_favorites s body1 userId now1 = (s, AlreadyFavorited)).
Proof.
  intros Hlat Hlon.
  rewrite (post_favorites_again s body1 body2 userId now1 now2 Hlat Hlon).
  simpl. split; [reflexivity|]. split; [reflexivity|].
  split; [|intros location; apply post_favorites_already].
  intros location favorite Hadded.
  split; [rewrite Hadded; discriminate|].
  split; [now apply post_favorites_added in Hadded|].
  intros Hwf before after_first after_second H0 H1 H2.
  pose proof (post_favorites_wf s body1 userId now1 Hwf) as Hwf1.
  apply post_favorites_added in Hadded as (_ & Hpair & _ & Hfav & _).
  rewrite (getFavoriteLocations_count _ _ _ Hwf H0).
  rewrite (getFavoriteLocations_count _ _ _ Hwf1 H1).
  rewrite (getFavoriteLocations_count _ _ _ Hwf1 H2).
  split; [|reflexivity].
  rewrite Hfav, filter_app, length_app. simpl.
  inversion Hpair as [[Hl Hu]]. rewrite Hu.
  assert (user_scope userId (or_null userId) = true) as ->
    by (now apply user_scope_true).
  simpl. lia.
Qed.

Lemma post_favorites_twice_witness :
  post_favorites new_york_favorite new_york u1 6 =
    (new_york_favorite, AlreadyFavorited) /\
  length (get_favorites new_york_favorite u1) = 1%nat /\
  length (get_favorites (fst (post_favorites new_york_favorite new_york u1 6))
            u1) = 1%nat.
Proof.
  destruct (post_favorites_twice empty_store new_york new_york u1 5 6
              eq_refl eq_refl) as (Hsig & Hst & Hadd & _).
  destruct (Hadd _ _ eq_refl) as (_ & _ & Hcount).
  destruct (Hcount empty_store_wf [] _ _
              (getFavoriteLocations_answer empty_store u1)
              (getFavoriteLocations_answer new_york_favorite u1)
              (getFavoriteLocations_answer
                 (fst (post_favorites new_york_favorite new_york u1 6)) u1))
    as [H1 H2].
  split; [|split].
  - apply injective_projections; [exact Hst | exact Hsig].
  - exact H1.
  - exact (eq_trans H2 H1).
Defined.

(** The scenario of the specification: add-favorite for New York twice with
    identity "u1"; the second answer is AlreadyFavorited and the list of
    favorites of "u1" has length 1. *)
Example post_favorites_new_york_twice :
  snd (post_favorites new_york_favorite new_york u1 6) = AlreadyFavorited /\
  map loc_name
    (get_favorites (fst (post_favorites new_york_favorite new_york u1 6)) u1) =
  ["New York"%string].
Proof. split; reflexivity. Qed.

(** C5. After the add-favorite handler has run for a location and an
    identity, the check for the location it resolved and the same identity
    answers true; after the remove handler for that pair, the check answers
    false.  The same holds of the storage methods the handlers call, for a
    location id that has its row in [locations]: [addFavorite] with the
    values the handler passes, then [isFavorite], then [removeFavorite] and
    [isFavorite]. *)
Theorem favorite_add_check_remove s body locationId userId now :
  get_favorites_check (fst (post_favorites s body userId now))
    (loc_id (snd (resolveOrCreateLocation s body now))) userId = true /\
  get_favorites_check
    (fst (delete_favorite (fst (post_favorites s body userId now))
            (loc_id (snd (resolveOrCreateLocation s body now))) userId))
    (loc_id (snd (resolveOrCreateLocation s body now))) userId = false /\
  (has_location s locationId ->
   isFavorite
     (fst (addFavorite s {| ins_fav_locationId := locationId;
                            ins_fav_userId := or_null userId |} now))
     locationId userId = true /\
   isFavorite
     (removeFavorite
        (fst (addFavorite s {| ins_fav_locationId := locationId;
                               ins_fav_userId := or_null userId |} now))
        locationId userId)
     locationId userId = false).
Proof.
  unfold get_favorites_check, delete_favorite. simpl.
  split; [apply isFavorite_post_favorites|].
  split; [apply isFavorite_removeFavorite|].
  intros _. split.
  - apply isFavorite_addFavorite.
  - apply isFavorite_removeFavorite.
Qed.

Lemma favorite_add_check_remove_witness :
  has_location one_visit 1 /\
  isFavorite one_visit 1 u1 = false /\
  isFavorite
    (fst (addFavorite one_visit {| ins_fav_locationId := 1;
                                   ins_fav_userId := u1 |} 7))
    1 u1 = true /\
  isFavorite
    (removeFavorite
       (fst (addFavorite one_visit {| ins_fav_locationId := 1;
                                      ins_fav_userId := u1 |} 7))
       1 u1)
    1 u1 = false.
Proof.
  assert (Hloc : has_location one_visit 1) by (now left).
  split; [exact Hloc|]. split; [reflexivity|].
  destruct (favorite_add_check_remove one_visit paris 1 u1 7) as (_ & _ & H).
  exact (H Hloc).
Defined.

(** [addFavorite] stores the identity it is given as it is.  Its one caller
    passes [userId || null]; an empty string stored as such would be a row
    that no [where] clause on [user_id] selects. *)
Example addFavorite_empty_string_verbatim :
  let s := fst (addFavorite one_visit
                  {| ins_fav_locationId := 1;
                     ins_fav_userId := Some ""%string |} 7) in
  map fav_userId (favoriteLocations s) = [Some ""%string] /\
  isFavorite s 1 (Some ""%string) = false /\
  isFavorite s 1 None = false.
Proof. repeat split. Qed.

(** * Removing a favorite *)

Lemma removeFavorite_idem s locationId userId :
  removeFavorite (removeFavorite s locationId userId) locationId userId =
  removeFavorite s locationId userId.
Proof. unfold removeFavorite. simpl. now rewrite filter_idem. Qed.

Lemma removeFavorite_absent s locationId userId :
  isFavorite s locationId userId = false ->
  removeFavorite s locationId userId = s.
Proof.
  intro H. unfold removeFavorite. rewrite filter_none; [apply store_eta|].
  intros f Hin. unfold isFavorite in H.
  destruct (find _ _) eqn:F; [discriminate|].
  now rewrite (find_none _ _ F _ Hin).
Qed.

(** C9, as stated, fails.  The location id of the request is compared with
    an [integer] column: for the id 2147483648, which no favorite can carry,
    the store raises and the handler answers 500. *)
Lemma removeFavorite_out_of_range_errors :
  isFavorite empty_store 2147483648 None = false /\
  delete_favorite_status empty_store 2147483648 None =
    (empty_store, Status500) /\
  ~ removeFavorite_never_errors.
Proof.
  split; [reflexivity|]. split; [reflexivity|]. intro H.
  specialize (H empty_store 2147483648 None eq_refl). discriminate H.
Qed.

(** C9, amended.  For a location id within the 32-bit range of the column,
    removing a favorite does not fail: the handler answers 200 and leaves the
    store that [removeFavorite] leaves, which is the store itself when the
    pair is not a favorite.  For an id outside the range the handler answers
    500 and the store is as it was.  In both cases a second request has the
    answer of the first and changes nothing.  [removeFavorite] itself returns
    the store unchanged for a pair that is not a favorite, and removing twice
    leaves what removing once leaves. *)
Theorem removeFavorite_idempotent s locationId userId :
  (-2147483648 <= locationId <= 2147483647 ->
   snd (delete_favorite_status s locationId userId) = Status200 /\
   fst (delete_favorite_status s locationId userId) =
     removeFavorite s locationId userId /\
   (isFavorite s locationId userId = false ->
    delete_favorite_status s locationId userId = (s, Status200))) /\
  (~ -2147483648 <= locationId <= 2147483647 ->
   delete_favorite_status s locationId userId = (s, Status500)) /\
  delete_favorite_status (fst (delete_favorite_status s locationId userId))
    locationId userId =
  (fst (delete_favorite_status s locationId userId),
   snd (delete_favorite_status s locationId userId)) /\
  (isFavorite s locationId userId = false ->
   fst (delete_favorite s locationId userId) = s) /\
  fst (delete_favorite (fst (delete_favorite s locationId userId))
         locationId userId) =
  fst (delete_favorite s locationId userId) /\
  removeFavorite (removeFavorite s locationId userId) locationId userId =
  removeFavorite s locationId userId.
Proof.
  assert (Hr : in_int32 locationId = true <->
               -2147483648 <= locationId <= 2147483647).
  { unfold in_int32, int32_min, int32_max.
    rewrite andb_true_iff, !Z.leb_le. tauto. }
  unfold delete_favorite_status, delete_favorite. cbn [fst snd].
  split; [|split; [|split; [|split; [|split]]]].
  - intro H. apply Hr in H. rewrite H. cbn [fst snd].
    split; [reflexivity|]. split; [reflexivity|].
    intro Habs. now rewrite removeFavorite_absent.
  - intro H. destruct (in_int32 locationId) eqn:E; [|reflexivity].
    exfalso. apply H. now apply Hr.
  - destruct (in_int32 locationId); cbn [fst snd]; [|reflexivity].
    now rewrite removeFavorite_idem.
  - apply removeFavorite_absent.
  - apply removeFavorite_idem.
  - apply removeFavorite_idem.
Qed.

Lemma removeFavorite_idempotent_witness :
  delete_favorite_status new_york_favorite 7 u1 =
    (new_york_favorite, Status200) /\
  delete_favorite_status new_york_favorite 2147483648 u1 =
    (new_york_favorite, Status500) /\
  fst (delete_favorite new_york_favorite 7 u1) = new_york_favorite.
Proof.
  destruct (removeFavorite_idempotent new_york_favorite 7 u1)
    as (Hin & _ & _ & H & _).
  destruct (removeFavorite_idempotent new_york_favorite 2147483648 u1)
    as (_ & Hout & _).
  split; [|split].
  - apply Hin; [lia | reflexivity].
  - apply Hout. lia.
  - apply H. reflexivity.
Defined.

(** * Visit history: listing and clearing *)

Lemma StronglySorted_app_inv {A : Type} (R : A -> A -> Prop) l1 l2 :
  StronglySorted R (l1 ++ l2) ->
  StronglySorted R l1 /\ StronglySorted R l2 /\
  (forall a b, In a l1 -> In b l2 -> R a b).
Proof.
  induction l1 as [|x l1 IH]; simpl; intro H.
  - repeat split; auto; [constructor | intros a b []].
  - inversion H as [|? ? Hs Hx]; subst. destruct (IH Hs) as (H1 & H2 & H12).
    apply Forall_app in Hx as [Hx1 Hx2]. repeat split; auto.
    + now constructor.
    + intros a b [<-|Ha] Hb; [|now apply H12].
      rewrite Forall_forall in Hx2. now apply Hx2.
Qed.

Lemma find_ext {A : Type} (p q : A -> bool) (H : forall a, p a = q a) l :
  find p l = find q l.
Proof. induction l as [|a l IH]; simpl; auto. now rewrite H, IH. Qed.

Lemma filter_all_false {A : Type} (p : A -> bool) l :
  (forall a, In a l -> p a = false) -> filter p l = [].
Proof.
  intro H. apply find_none_filter. destruct (find p l) as [x|] eqn:F; auto.
  apply find_some in F as [Hx Hp]. rewrite (H _ Hx) in Hp. discriminate.
Qed.

Lemma innerJoin_filter {A : Type} (locationId : A -> Z) (p : A -> bool) rows locs :
  innerJoin locationId (filter p rows) locs =
  filter (fun x => p (fst x)) (innerJoin locationId rows locs).
Proof.
  induction rows as [|r rows IH]; simpl; auto.
  rewrite filter_app, <- IH.
  destruct (p r) eqn:E; simpl; [f_equal|].
  - symmetry. apply filter_none. intros x Hx.
    apply in_map_iff in Hx as (l & <- & _). exact E.
  - rewrite (filter_all_false (fun x => p (fst x))); auto. intros x Hx.
    apply in_map_iff in Hx as (l & <- & _). exact E.
Qed.

(** Two identities with different [userId || null] select disjoint rows. *)
Lemma user_scope_other userId other c :
  or_null other <> or_null userId ->
  user_scope other c = true -> user_scope userId c = false.
Proof.
  intros Hne Ho. apply user_scope_true in Ho.
  destruct (user_scope userId c) eqn:E; auto.
  apply user_scope_true in E. congruence.
Qed.

Lemma history_rows_clearHistory s userId :
  history_rows (clearHistory s userId) userId = [].
Proof.
  unfold history_rows, clearHistory. simpl. rewrite innerJoin_filter.
  apply (filter_negb_nil (fun p => user_scope userId (hist_userId (fst p)))).
Qed.

Lemma history_rows_clearHistory_other s userId other :
  or_null other <> or_null userId ->
  history_rows (clearHistory s userId) other = history_rows s other.
Proof.
  intro Hne. unfold history_rows, clearHistory. simpl.
  rewrite innerJoin_filter, filter_comm. apply filter_none.
  intros x Hx. apply filter_In in Hx as [_ Hx].
  now rewrite (user_scope_other userId other _ Hne Hx).
Qed.

Lemma clearHistory_or_null s userId :
  clearHistory s (or_null userId) = clearHistory s userId.
Proof.
  unfold clearHistory. f_equal. apply filter_ext. intro h.
  now rewrite user_scope_normal.
Qed.

Lemma getLocationHistory_returns_nil s userId limit history :
  history_rows s userId = [] ->
  getLocationHistory_returns s userId limit history -> history = [].
Proof.
  intros Hnil (rows & Hord & ->). rewrite Hnil in Hord.
  apply orderBy_desc_nil in Hord. subst rows. now rewrite firstn_nil.
Qed.

(** C7. [clearHistory] deletes the history rows of the identity's scope (the
    rows with a null [user_id] when the identity is absent) and nothing else:
    the rows left are those of the other scopes; afterwards every listing of
    the identity's history is empty; for an identity of another scope the
    rows and the listings are what they were; the favorites, the locations
    and the sequences are untouched.  The handler does the same. *)
Theorem clearHistory_frame s userId :
  fst (delete_history s userId) = clearHistory s userId /\
  (forall h, In h (locationHistory (clearHistory s userId)) <->
             In h (locationHistory s) /\ hist_userId h <> or_null userId) /\
  (forall limit history,
     getLocationHistory_returns (clearHistory s userId) userId limit history ->
     history = []) /\
  (forall other,
     or_null other <> or_null userId ->
     filter (fun h => user_scope other (hist_userId h))
       (locationHistory (clearHistory s userId)) =
     filter (fun h => user_scope other (hist_userId h)) (locationHistory s) /\
     forall limit history,
       getLocationHistory_returns (clearHistory s userId) other limit history <->
       getLocationHistory_returns s other limit history) /\
  favoriteLocations (clearHistory s userId) = favoriteLocations s /\
  locations (clearHistory s userId) = locations s /\
  locations_seq (clearHistory s userId) = locations_seq s /\
  favoriteLocations_seq (clearHistory s userId) = favoriteLocations_seq s /\
  locationHistory_seq (clearHistory s userId) = locationHistory_seq s.
Proof.
  split; [apply clearHistory_or_null|]. split; [|split; [|split]].
  - intro h. simpl. rewrite filter_In, negb_true_iff.
    rewrite <- not_true_iff_false, user_scope_true. tauto.
  - intros limit history. apply getLocationHistory_returns_nil.
    apply history_rows_clearHistory.
  - intros other Hne. split.
    + simpl. rewrite filter_comm. apply filter_none. intros h Hh.
      apply filter_In in Hh as [_ Hh].
      now rewrite (user_scope_other userId other _ Hne Hh).
    + intros limit history. unfold getLocationHistory_returns.
      now rewrite history_rows_clearHistory_other.
  - repeat split.
Qed.

Lemma clearHistory_frame_witness :
  get_history (clearHistory two_histories None) None None = [] /\
  (get_history_returns (clearHistory two_histories None) u1 None
     (get_history two_histories u1 None)).
Proof.
  destruct (clearHistory_frame two_histories None) as (_ & _ & Hnil & Hother & _).
  split.
  - apply (Hnil None). apply getLocationHistory_answer.
  - destruct (Hother u1) as [_ Hiff]; [discriminate|].
    apply Hiff. apply getLocationHistory_answer.
Defined.

Lemma getLocationHistory_number_answer s userId limit :
  getLocationHistory_number_returns s userId limit
    (getLocationHistory_number s userId limit).
Proof.
  destruct limit as [[n|]|]; simpl.
  - destruct (0 <=? n); [apply getLocationHistory_answer|].
    eexists. split; [apply sort_desc_orderBy | reflexivity].
  - eexists. split; [apply sort_desc_orderBy | reflexivity].
  - apply getLocationHistory_answer.
Qed.

(** Every answer is the first [n] rows of an arrangement of the selected
    rows: [n] is the limit when the statement has a LIMIT clause and the
    number of rows when it has none. *)
Lemma getLocationHistory_number_cut s userId limit history :
  getLocationHistory_number_returns s userId limit history ->
  exists out n,
    orderBy_desc hist_key (history_rows s userId) out /\
    history = map snd (firstn n out) /\
    match limit with
    | None => n = 10%nat
    | Some (Some m) => if 0 <=? m then n = Z.to_nat m else n = length out
    | Some None => n = length out
    end.
Proof.
  destruct limit as [[m|]|]; simpl.
  - destruct (0 <=? m).
    + intros (out & Hord & ->). now exists out, (Z.to_nat m).
    + intros (out & Hord & ->). exists out, (length out).
      now rewrite firstn_all.
  - intros (out & Hord & ->). exists out, (length out). now rewrite firstn_all.
  - intros (out & Hord & ->). now exists out, 10%nat.
Qed.

(** The first [n] rows of an arrangement sorted on [lastVisited]. *)
Lemma history_prefix s userId out n :
  orderBy_desc hist_key (history_rows s userId) out ->
  Permutation (history_rows s userId) (firstn n out ++ skipn n out) /\
  length (firstn n out) = Nat.min n (length (history_rows s userId)) /\
  (forall d i j, (i < j < length (firstn n out))%nat ->
     hist_lastVisited (fst (nth j (firstn n out) d)) <=
     hist_lastVisited (fst (nth i (firstn n out) d))) /\
  (forall p q, In p (firstn n out) -> In q (skipn n out) ->
     hist_lastVisited (fst q) <= hist_lastVisited (fst p)) /\
  (forall h l, In (h, l) (firstn n out) ->
     In h (locationHistory s) /\ hist_userId h = or_null userId /\
     In l (locations s) /\ loc_id l = hist_locationId h).
Proof.
  intros [Hperm Hsort]. rewrite firstn_skipn.
  split; [exact Hperm|]. split.
  { rewrite length_firstn. now rewrite (Permutation_length Hperm). }
  rewrite <- (firstn_skipn n out) in Hsort.
  apply StronglySorted_app_inv in Hsort as (H1 & _ & H12).
  split; [|split].
  - intros d i j Hij.
    exact (StronglySorted_nth hist_key d (firstn n out) H1 i j Hij).
  - intros p q Hp Hq. exact (H12 p q Hp Hq).
  - intros h l Hrow.
    assert (Hin : In (h, l) (history_rows s userId)).
    { eapply Permutation_in; [symmetry; exact Hperm|].
      rewrite <- (firstn_skipn n out). apply in_or_app. now left. }
    apply filter_In in Hin as [Hjoin Hscope].
    apply innerJoin_In in Hjoin as (Hh & Hl & Hid).
    apply user_scope_true in Hscope. auto.
Qed.

(** C6, as stated, fails.  The limit is a number that the handler passes on
    as [parseInt] returns it, -1 for the query [limit=-1].  For the limit -1
    the statement has no LIMIT clause: the five places visited are all
    listed, which is more than the limit. *)
Lemma getLocationHistory_negative_limit_unbounded :
  history_limit_query (Some (of_ascii "-1")) = Some (Some (-1)) /\
  getLocationHistory_number_returns five_visits None (Some (Some (-1)))
    (getLocationHistory_number five_visits None (Some (Some (-1)))) /\
  map loc_name (getLocationHistory_number five_visits None (Some (Some (-1)))) =
    ["Paris"%string; "Cairo"%string; "Tokyo"%string; "London"%string;
     "New York"%string] /\
  ~ history_truncated_to_limit.
Proof.
  split; [reflexivity|].
  split; [apply getLocationHistory_number_answer|]. split; [reflexivity|].
  intro H.
  specialize (H five_visits None (-1) _
                (getLocationHistory_number_answer five_visits None
                   (Some (Some (-1))))).
  vm_compute in H. now apply H.
Qed.

(** C6, amended.  Every answer of [getLocationHistory] lists locations joined
    to history rows of the identity's scope, most recently visited first: it
    comes from a prefix [rows] of an arrangement [rows ++ rest] of the
    selected rows, [hist_lastVisited] never increases along [rows], and no
    row left out was visited later than a row listed.  With no limit given
    the prefix has [min 10 (number of selected rows)] elements, with a limit
    [n >= 0] it has [min n (number of selected rows)], and with a negative
    limit or [NaN] nothing is left out.  So an answer has at most [n]
    locations for a limit [n >= 0] and at most 10 without a limit.  In a
    well-formed store the selected rows are the identity's history rows, so
    five entries and the limit 2 give exactly two locations. *)
Theorem getLocationHistory_most_recent_first s userId limit history :
  getLocationHistory_number_returns s userId limit history ->
  (exists rows rest,
     history = map snd rows /\
     Permutation (history_rows s userId) (rows ++ rest) /\
     (forall d i j, (i < j < length rows)%nat ->
        hist_lastVisited (fst (nth j rows d)) <=
        hist_lastVisited (fst (nth i rows d))) /\
     (forall p q, In p rows -> In q rest ->
        hist_lastVisited (fst q) <= hist_lastVisited (fst p)) /\
     (forall h l, In (h, l) rows ->
        In h (locationHistory s) /\ hist_userId h = or_null userId /\
        In l (locations s) /\ loc_id l = hist_locationId h) /\
     match limit with
     | None => length rows = Nat.min 10 (length (history_rows s userId))
     | Some (Some n) =>
         (0 <= n ->
          length rows = Nat.min (Z.to_nat n) (length (history_rows s userId))) /\
         (n < 0 -> rest = [])
     | Some None => rest = []
     end) /\
  (forall n, limit = Some (Some n) -> 0 <= n -> Z.of_nat (length history) <= n) /\
  (limit = None -> (length history <= 10)%nat) /\
  (store_wf s ->
   length (history_rows s userId) =
   length (filter (fun h => user_scope userId (hist_userId h))
             (locationHistory s))) /\
  (store_wf s ->
   length (filter (fun h => user_scope userId (hist_userId h))
             (locationHistory s)) = 5%nat ->
   limit = Some (Some 2) -> length history = 2%nat).
Proof.
  intro Hret.
  destruct (getLocationHistory_number_cut s userId limit history Hret)
    as (out & n & Hord & -> & Hn).
  destruct (history_prefix s userId out n Hord)
    as (Hperm & Hlen & Hsorted & Hrest & Hrows).
  assert (Hall : n = length out -> skipn n out = []).
  { intros ->. apply skipn_all. }
  assert (Hwf : store_wf s ->
     length (history_rows s userId) =
     length (filter (fun h => user_scope userId (hist_userId h))
               (locationHistory s))).
  { intro Hwf. now rewrite <- (history_rows_fst s userId Hwf), length_map. }
  split; [|split; [|split; [|split]]].
  - exists (firstn n out), (skipn n out).
    split; [reflexivity|]. split; [exact Hperm|]. split; [exact Hsorted|].
    split; [exact Hrest|]. split; [exact Hrows|].
    destruct limit as [[m|]|].
    + split.
      * intro Hm. apply Z.leb_le in Hm. rewrite Hm in Hn. now subst n.
      * intro Hm. apply Z.leb_gt in Hm. rewrite Hm in Hn. now apply Hall.
    + now apply Hall.
    + now subst n.
  - intros m -> Hm. rewrite length_map, Hlen.
    apply Z.leb_le in Hm as Hb. rewrite Hb in Hn. subst n.
    pose proof (Nat.le_min_l (Z.to_nat m) (length (history_rows s userId))).
    lia.
  - intros ->. subst n. rewrite length_map, Hlen. apply Nat.le_min_l.
  - exact Hwf.
  - intros Hwf' H5 ->. simpl in Hn. subst n.
    rewrite length_map, Hlen, (Hwf Hwf'), H5. reflexivity.
Qed.

Lemma getLocationHistory_most_recent_first_witness :
  length (getLocationHistory_number five_visits None (Some (Some 2))) = 2%nat /\
  Z.of_nat (length (getLocationHistory_number five_visits None (Some (Some 2))))
    <= 2 /\
  exists rows rest,
    getLocationHistory_number five_visits None (Some (Some 2)) = map snd rows /\
    Permutation (history_rows five_visits None) (rows ++ rest) /\
    length rows = 2%nat /\
    (forall p q, In p rows -> In q rest ->
       hist_lastVisited (fst q) <= hist_lastVisited (fst p)).
Proof.
  destruct (getLocationHistory_most_recent_first five_visits None
              (Some (Some 2))
              (getLocationHistory_number five_visits None (Some (Some 2)))
              (getLocationHistory_number_answer five_visits None
                 (Some (Some 2))))
    as ((rows & rest & Hmap & Hperm & _ & Hrest & _ & Hlen & _) &
        Hbound & _ & _ & H).
  split; [|split].
  - apply H.
    + apply reachable_wf. apply reachable_run, reachable_empty.
    + reflexivity.
    + reflexivity.
  - apply (Hbound 2); [reflexivity | lia].
  - exists rows, rest. split; [exact Hmap|]. split; [exact Hperm|].
    split; [|exact Hrest]. apply Hlen. lia.
Defined.

(** The scenario of the specification: five places visited, Paris again at
    the end; the limit 2 lists Paris and Cairo, no limit lists all five,
    latest visit first. *)
Example get_history_five_visits :
  length (locationHistory five_visits) = 5%nat /\
  map loc_name (get_history five_visits None (Some 2%nat)) =
    ["Paris"%string; "Cairo"%string] /\
  map loc_name (getLocationHistory_number five_visits None (Some (Some 2))) =
    ["Paris"%string; "Cairo"%string] /\
  map loc_name (get_history five_visits None None) =
    ["Paris"%string; "Cairo"%string; "Tokyo"%string; "London"%string;
     "New York"%string].
Proof. repeat split. Qed.

(** * Listing favorites *)

Lemma tie_store_rows : favorite_rows tie_store None = [paris_row; new_york_row].
Proof. reflexivity. Qed.

Lemma tie_store_answers :
  orderBy_desc fav_key (favorite_rows tie_store None) [paris_row; new_york_row] /\
  orderBy_desc fav_key (favorite_rows tie_store None) [new_york_row; paris_row].
Proof.
  rewrite tie_store_rows. split; split.
  - apply Permutation_refl.
  - repeat constructor; unfold desc_by, fav_key; simpl; lia.
  - apply perm_swap.
  - repeat constructor; unfold desc_by, fav_key; simpl; lia.
Qed.

(** C8, as stated, fails.  [getFavoriteLocations] orders by [createdAt] and by
    nothing else: for two favorites created at the same time both orders are
    answers of the query, so neither reading of a tie-break by id holds. *)
Lemma getFavoriteLocations_ties_unordered :
  getFavoriteLocations_returns tie_store None
    [snd paris_row; snd new_york_row] /\
  getFavoriteLocations_returns tie_store None
    [snd new_york_row; snd paris_row] /\
  forall asc, ~ ties_broken_by_insertion asc.
Proof.
  destruct tie_store_answers as [H1 H2]. split; [|split].
  - exists [paris_row; new_york_row]. now split.
  - exists [new_york_row; paris_row]. now split.
  - intros asc Hclaim. destruct asc.
    + specialize (Hclaim tie_store None _ H2).
      inversion Hclaim as [|? ? _ Hall]; subst.
      inversion Hall as [|? ? Hrel _]; subst.
      destruct Hrel as [Hlt | [_ Hlt]]; simpl in Hlt; lia.
    + specialize (Hclaim tie_store None _ H1).
      inversion Hclaim as [|? ? _ Hall]; subst.
      inversion Hall as [|? ? Hrel _]; subst.
      destruct Hrel as [Hlt | [_ Hlt]]; simpl in Hlt; lia.
Qed.

(** C8, amended.  Every answer of [getFavoriteLocations] lists the locations
    joined to the favorites of the identity's scope, each selected row once,
    with the creation time of the favorite never increasing along the list;
    the order of favorites created at the same time is not fixed.  The scope
    of an absent identity is the rows with a null [user_id], not all rows.
    The computed list is one of the answers. *)
Theorem getFavoriteLocations_newest_first s userId favorites :
  getFavoriteLocations_returns s userId favorites ->
  getFavoriteLocations_returns s userId (getFavoriteLocations s userId) /\
  (exists rows,
     favorites = map snd rows /\
     Permutation (favorite_rows s userId) rows /\
     (forall d i j, (i < j < length rows)%nat ->
        fav_createdAt (fst (nth j rows d)) <= fav_createdAt (fst (nth i rows d))) /\
     (forall f l, In (f, l) rows <->
        In f (favoriteLocations s) /\ fav_userId f = or_null userId /\
        In l (locations s) /\ loc_id l = fav_locationId f) /\
     (userId = None -> forall f l, In (f, l) rows -> fav_userId f = None)) /\
  (store_wf s ->
   length favorites =
   length (filter (fun f => userId_eqb (fav_userId f) (or_null userId))
             (favoriteLocations s))).
Proof.
  intro Hret. split; [apply getFavoriteLocations_answer|]. split.
  - destruct Hret as (rows & [Hperm Hsort] & ->). exists rows.
    assert (Hrows : forall f l, In (f, l) rows <->
              In f (favoriteLocations s) /\ fav_userId f = or_null userId /\
              In l (locations s) /\ loc_id l = fav_locationId f).
    { intros f l. rewrite (orderBy_desc_In fav_key _ rows (f, l)
                             (conj Hperm Hsort)).
      unfold favorite_rows. rewrite filter_In, innerJoin_In. simpl.
      rewrite user_scope_true. tauto. }
    split; [reflexivity|]. split; [exact Hperm|]. split; [|split].
    + intros d i j Hij.
      exact (StronglySorted_nth fav_key d rows Hsort i j Hij).
    + exact Hrows.
    + intros -> f l Hin. apply Hrows in Hin. tauto.
  - intro Hwf. rewrite (getFavoriteLocations_count s userId favorites Hwf Hret).
    f_equal. apply filter_ext. intro f. apply user_scope_or_null.
Qed.

Lemma getFavoriteLocations_newest_first_witness :
  length (getFavoriteLocations tie_store None) = 2%nat.
Proof.
  destruct (getFavoriteLocations_newest_first tie_store None
              (getFavoriteLocations tie_store None)
              (getFavoriteLocations_answer tie_store None)) as (_ & _ & H).
  apply H. apply reachable_wf. apply reachable_run, reachable_empty.
Defined.

(** * The empty string as an identity *)

(** Every method of the storage class except [addFavorite], which takes the
    identity inside its row, treats an identity as [userId || null]. *)
Lemma storage_or_null s locationId userId limit now :
  favorite_rows s (or_null userId) = favorite_rows s userId /\
  history_rows s (or_null userId) = history_rows s userId /\
  getFavoriteLocations s (or_null userId) = getFavoriteLocations s userId /\
  getLocationHistory s (or_null userId) limit =
    getLocationHistory s userId limit /\
  isFavorite s locationId (or_null userId) = isFavorite s locationId userId /\
  removeFavorite s locationId (or_null userId) =
    removeFavorite s locationId userId /\
  addToHistory s locationId (or_null userId) now =
    addToHistory s locationId userId now /\
  clearHistory s (or_null userId) = clearHistory s userId.
Proof.
  assert (Hfav : forall f, favorite_matches locationId (or_null userId) f =
                           favorite_matches locationId userId f)
    by (intro; unfold favorite_matches; now rewrite user_scope_normal).
  assert (Hhist : forall h, history_matches locationId (or_null userId) h =
                            history_matches locationId userId h)
    by (intro; unfold history_matches; now rewrite user_scope_normal).
  assert (Hfr : favorite_rows s (or_null userId) = favorite_rows s userId)
    by (apply filter_ext; intro; apply user_scope_normal).
  assert (Hhr : history_rows s (or_null userId) = history_rows s userId)
    by (apply filter_ext; intro; apply user_scope_normal).
  repeat split; auto.
  - unfold getFavoriteLocations. now rewrite Hfr.
  - unfold getLocationHistory. now rewrite Hhr.
  - unfold isFavorite. now rewrite (find_ext _ _ Hfav).
  - unfold removeFavorite. f_equal. apply filter_ext. intro. now rewrite Hfav.
  - unfold addToHistory. rewrite (find_ext _ _ Hhist), or_null_idem. reflexivity.
  - apply clearHistory_or_null.
Qed.

(** C10. For every store and every handler of the core, the empty string as
    identity gives the answer and the store that an absent identity gives:
    listing favorites, adding, removing and checking a favorite, listing
    history, recording a visit and clearing history. *)
Theorem empty_string_is_anonymous s body locationId limit now :
  (forall favorites,
     get_favorites_returns s (Some ""%string) favorites <->
     get_favorites_returns s None favorites) /\
  get_favorites s (Some ""%string) = get_favorites s None /\
  post_favorites s body (Some ""%string) now = post_favorites s body None now /\
  delete_favorite s locationId (Some ""%string) =
    delete_favorite s locationId None /\
  get_favorites_check s locationId (Some ""%string) =
    get_favorites_check s locationId None /\
  (forall history,
     get_history_returns s (Some ""%string) limit history <->
     get_history_returns s None limit history) /\
  get_history s (Some ""%string) limit = get_history s None limit /\
  post_history s body (Some ""%string) now = post_history s body None now /\
  delete_history s (Some ""%string) = delete_history s None /\
  addToHistory s locationId (Some ""%string) now =
    addToHistory s locationId None now /\
  clearHistory s (Some ""%string) = clearHistory s None.
Proof.
  repeat split; intro H; exact H.
Qed.

Lemma empty_string_is_anonymous_witness :
  get_favorites_returns tie_store (Some ""%string) (get_favorites tie_store None).
Proof.
  destruct (empty_string_is_anonymous tie_store paris 1 None 0) as (H & _).
  apply H. apply getFavoriteLocations_answer.
Defined.

(** * The location registry over a run *)

Lemma resolve_append s body now :
  exists new,
    locations (fst (resolveOrCreateLocation s body now)) = locations s ++ new /\
    (length new <= 1)%nat /\
    locations_seq (fst (resolveOrCreateLocation s body now)) =
      locations_seq s + Z.of_nat (length new).
Proof.
  unfold resolveOrCreateLocation.
  destruct (findLocationByCoords s _ _); simpl.
  - exists []. rewrite app_nil_r. simpl. repeat split; lia.
  - eexists [_]. simpl. repeat split; lia.
Qed.

Lemma handle_append s r now :
  exists new,
    locations (handle s r now) = locations s ++ new /\
    (length new <= 1)%nat /\
    locations_seq (handle s r now) = locations_seq s + Z.of_nat (length new).
Proof.
  destruct r as [body u | id u | body u | u]; simpl.
  - destruct (post_favorites_locations s body u now) as [-> ->].
    apply resolve_append.
  - exists []. rewrite app_nil_r. simpl. repeat split; lia.
  - destruct (post_history_locations s body u now) as [-> ->].
    apply resolve_append.
  - exists []. rewrite app_nil_r. simpl. repeat split; lia.
Qed.

(** X1. No handler deletes or rewrites a row of [locations]: over any run of
    requests the table only grows at its end, by at most one row per request,
    and the sequence advances by the number of rows added. *)
Theorem run_locations_append_only s reqs :
  exists new,
    locations (run s reqs) = locations s ++ new /\
    (length new <= length reqs)%nat /\
    locations_seq (run s reqs) = locations_seq s + Z.of_nat (length new).
Proof.
  revert s. induction reqs as [|[r now] reqs IH]; intro s; simpl.
  - exists []. rewrite app_nil_r. simpl. repeat split; lia.
  - destruct (handle_append s r now) as (new1 & H1 & L1 & S1).
    destruct (IH (handle s r now)) as (new2 & H2 & L2 & S2).
    exists (new1 ++ new2). rewrite H2, H1, S2, S1, length_app, <- app_assoc.
    repeat split; lia.
Qed.

(** X2. In a sequential execution the registry is keyed both ways: location
    ids are pairwise distinct and below the sequence, and no two rows carry
    the same coordinates. *)
Theorem reachable_registry_keys s :
  reachable s ->
  NoDup (map loc_id (locations s)) /\
  NoDup (map loc_coords (locations s)) /\
  (forall lat lon, (length (locations_at s lat lon) <= 1)%nat) /\
  (forall l, In l (locations s) -> loc_id l < locations_seq s).
Proof.
  intro H. pose proof (reachable_wf s H) as [[Hids Hseq Hco] _ _].
  split; [exact Hids|]. split; [exact Hco|]. split.
  - intros lat lon. now apply reachable_one_location_per_coords.
  - now apply Forall_forall.
Qed.

Lemma reachable_registry_keys_witness :
  NoDup (map loc_id (locations (run empty_store busy_requests))).
Proof.
  apply (reachable_registry_keys (run empty_store busy_requests)).
  apply reachable_run, reachable_empty.
Defined.

(** * References and identities of the stored rows *)

Lemma has_location_unique s locationId :
  NoDup (map loc_id (locations s)) ->
  has_location s locationId ->
  exists l, In l (locations s) /\ loc_id l = locationId /\
            filter (fun x => locationId =? loc_id x) (locations s) = [l].
Proof.
  intros Hnd Hin. apply in_map_iff in Hin as (l & Hl & Hin).
  exists l. repeat split; auto. rewrite <- Hl.
  now apply filter_by_id_unique.
Qed.

(** X3. In a sequential execution every favorite and every history row
    refers to exactly one row of [locations]: the join of a ledger with the
    registry keeps each ledger row once. *)
Theorem reachable_references_resolve s :
  reachable s ->
  (forall f, In f (favoriteLocations s) ->
     exists l, In l (locations s) /\ loc_id l = fav_locationId f /\
       filter (fun x => fav_locationId f =? loc_id x) (locations s) = [l]) /\
  (forall h, In h (locationHistory s) ->
     exists l, In l (locations s) /\ loc_id l = hist_locationId h /\
       filter (fun x => hist_locationId h =? loc_id x) (locations s) = [l]) /\
  map fst (innerJoin fav_locationId (favoriteLocations s) (locations s)) =
    favoriteLocations s /\
  map fst (innerJoin hist_locationId (locationHistory s) (locations s)) =
    locationHistory s.
Proof.
  intro H.
  pose proof (reachable_wf s H) as [[Hids _ _] [Hfk _ _] [Hhk _ _ _ _ _]].
  rewrite Forall_forall in Hfk, Hhk. repeat split.
  - intros f Hf. apply has_location_unique; auto.
  - intros h Hh. apply has_location_unique; auto.
  - apply innerJoin_length; auto. now apply Forall_forall.
  - apply innerJoin_length; auto. now apply Forall_forall.
Qed.

Lemma reachable_references_resolve_witness :
  map fst (innerJoin fav_locationId
             (favoriteLocations (run empty_store busy_requests))
             (locations (run empty_store busy_requests))) =
  favoriteLocations (run empty_store busy_requests).
Proof.
  apply (reachable_references_resolve (run empty_store busy_requests)).
  apply reachable_run, reachable_empty.
Defined.

Lemma or_null_fixed u : u <> Some ""%string -> or_null u = u.
Proof.
  intro H. unfold or_null. destruct u as [x|]; simpl; auto.
  destruct (String.eqb x "") eqn:E; simpl; auto.
  apply String.eqb_eq in E. congruence.
Qed.

(** X4. The handlers never store the empty string as an identity, so no row
    is out of reach of the [where] clauses: in a sequential execution every
    favorite is found by the check for its own location and identity and is
    selected for the listing of that identity, and every history row is
    selected for the history of its identity. *)
Theorem reachable_rows_visible s :
  reachable s ->
  (forall f, In f (favoriteLocations s) ->
     fav_userId f <> Some ""%string /\
     isFavorite s (fav_locationId f) (fav_userId f) = true /\
     exists l, In (f, l) (favorite_rows s (fav_userId f))) /\
  (forall h, In h (locationHistory s) ->
     hist_userId h <> Some ""%string /\
     exists l, In (h, l) (history_rows s (hist_userId h))).
Proof.
  intro H.
  pose proof (reachable_wf s H)
    as [_ [Hfk _ Hfu] [Hhk _ Hhu _ _ _]].
  rewrite Forall_forall in Hfk, Hfu, Hhk, Hhu. split.
  - intros f Hf. pose proof (Hfu f Hf) as Hne.
    split; [exact Hne|]. split.
    + apply isFavorite_true. exists f.
      rewrite (or_null_fixed _ Hne). auto.
    + pose proof (Hfk f Hf) as Hloc.
      apply in_map_iff in Hloc as (l & Hl & Hin). exists l.
      apply filter_In. split; [apply innerJoin_In; auto|]. simpl.
      apply user_scope_true. now rewrite (or_null_fixed _ Hne).
  - intros h Hh. pose proof (Hhu h Hh) as Hne. split; [exact Hne|].
    pose proof (Hhk h Hh) as Hloc.
    apply in_map_iff in Hloc as (l & Hl & Hin). exists l.
    apply filter_In. split; [apply innerJoin_In; auto|]. simpl.
    apply user_scope_true. now rewrite (or_null_fixed _ Hne).
Qed.

Lemma reachable_rows_visible_witness :
  isFavorite (run empty_store busy_requests) 2 u1 = true.
Proof.
  destruct (reachable_rows_visible (run empty_store busy_requests)) as [H _].
  - apply reachable_run, reachable_empty.
  - apply (H {| fav_id := 3; fav_locationId := 2; fav_userId := u1;
                fav_createdAt := 7 |}).
    right. left. reflexivity.
Defined.

(** * Counting visits *)

Lemma last_cons {A : Type} (a d : A) l : last (a :: l) d = last l a.
Proof.
  revert a d. induction l as [|b l IH]; intros a d; [reflexivity|].
  change (last (a :: b :: l) d) with (last (b :: l) d).
  now rewrite (IH b d), (IH b a).
Qed.

Lemma visits_existing s locationId userId times e :
  history_of s locationId (or_null userId) = [e] ->
  history_of (visits s locationId userId times) locationId (or_null userId) =
  [ {| hist_id := hist_id e;
       hist_locationId := hist_locationId e;
       hist_userId := hist_userId e;
       hist_visitCount := hist_visitCount e + Z.of_nat (length times);
       hist_lastVisited := last times (hist_lastVisited e) |} ].
Proof.
  revert s e. induction times as [|t times IH]; intros s e H.
  - simpl. rewrite H, Z.add_0_r. now destruct e.
  - change (visits s locationId userId (t :: times))
      with (visits (addToHistory s locationId userId t) locationId userId times).
    destruct (addToHistory_existing s locationId userId t e [] H) as (_ & _ & H1).
    rewrite (IH _ _ H1), last_cons. unfold visited.
    cbn [hist_id hist_locationId hist_userId hist_visitCount hist_lastVisited].
    do 2 f_equal. change (length (t :: times)) with (S (length times)). lia.
Qed.

(** X5. Visits are counted, in a store that satisfies its keys and for a
    location id that has its row: any number of [addToHistory] calls in a row
    for a pair leave the pair's single row with its count raised by the
    number of calls and with the time of the last call, as long as the count
    stays within the [integer] column; for a pair without a row the count is
    the number of calls. *)
Theorem visits_counted s locationId userId times :
  store_wf s ->
  has_location s locationId ->
  (forall e,
     history_of s locationId (or_null userId) = [e] ->
     hist_visitCount e + Z.of_nat (length times) <= 2147483647 ->
     history_of (visits s locationId userId times) locationId (or_null userId) =
     [ {| hist_id := hist_id e;
          hist_locationId := hist_locationId e;
          hist_userId := hist_userId e;
          hist_visitCount := hist_visitCount e + Z.of_nat (length times);
          hist_lastVisited := last times (hist_lastVisited e) |} ]) /\
  (history_of s locationId (or_null userId) = [] ->
   times <> [] ->
   Z.of_nat (length times) <= 2147483647 ->
   history_of (visits s locationId userId times) locationId (or_null userId) =
   [ {| hist_id := locationHistory_seq s;
        hist_locationId := locationId;
        hist_userId := or_null userId;
        hist_visitCount := Z.of_nat (length times);
        hist_lastVisited := last times 0 |} ]).
Proof.
  intros _ _. split; [intros e He _; now apply visits_existing|].
  intros H Hne _. destruct times as [|t times]; [congruence|].
  change (visits s locationId userId (t :: times))
    with (visits (addToHistory s locationId userId t) locationId userId times).
  destruct (addToHistory_first s locationId userId t H) as [_ H1].
  rewrite (visits_existing _ _ _ times _ H1), last_cons. unfold first_visit.
  cbn [hist_id hist_locationId hist_userId hist_visitCount hist_lastVisited].
  do 2 f_equal. change (length (t :: times)) with (S (length times)). lia.
Qed.

Lemma visits_counted_witness :
  has_location one_visit 1 /\
  history_of (visits one_visit 1 None [200; 300]) 1 None =
  [ {| hist_id := 1; hist_locationId := 1; hist_userId := None;
       hist_visitCount := 3; hist_lastVisited := 300 |} ] /\
  history_of (visits one_visit 1 u1 [10; 20; 30; 40]) 1 u1 =
  [ {| hist_id := 2; hist_locationId := 1; hist_userId := u1;
       hist_visitCount := 4; hist_lastVisited := 40 |} ].
Proof.
  assert (Hwf : store_wf one_visit).
  { apply reachable_wf.
    apply (reachable_handle empty_store (AddHistory paris None) 100).
    apply reachable_empty. }
  assert (Hloc : has_location one_visit 1) by (now left).
  split; [exact Hloc|]. split.
  - destruct (visits_counted one_visit 1 None [200; 300] Hwf Hloc) as [H _].
    apply (H {| hist_id := 1; hist_locationId := 1; hist_userId := None;
                hist_visitCount := 1; hist_lastVisited := 100 |});
      [reflexivity | simpl; lia].
  - destruct (visits_counted one_visit 1 u1 [10; 20; 30; 40] Hwf Hloc)
      as [_ H].
    apply H; [reflexivity | discriminate | simpl; lia].
Defined.

(** X6. In a sequential execution the history rows have pairwise distinct
    ids below the sequence and a visit count of at least one. *)
Theorem reachable_history_rows s :
  reachable s ->
  NoDup (map hist_id (locationHistory s)) /\
  (forall h, In h (locationHistory s) ->
     hist_id h < locationHistory_seq s /\ 1 <= hist_visitCount h).
Proof.
  intro H. pose proof (reachable_wf s H) as [_ _ [_ _ _ Hhi Hhs Hhc]].
  rewrite Forall_forall in Hhs, Hhc. split; auto.
Qed.

Lemma reachable_history_rows_witness :
  1 < locationHistory_seq five_visits /\ 1 <= 2.
Proof.
  destruct (reachable_history_rows five_visits) as [_ H].
  - apply reachable_run, reachable_empty.
  - apply (H {| hist_id := 1; hist_locationId := 1; hist_userId := None;
                hist_visitCount := 2; hist_lastVisited := 6 |}).
    left. reflexivity.
Defined.

(** * What a removal leaves in place *)

Lemma find_filter_implied {A : Type} (p q : A -> bool) l :
  (forall a, p a = true -> q a = true) -> find p (filter q l) = find p l.
Proof.
  intro H. induction l as [|a l IH]; simpl; auto.
  destruct (q a) eqn:Q; simpl.
  - destruct (p a); auto.
  - destruct (p a) eqn:P; auto. rewrite (H a P) in Q. discriminate.
Qed.

Lemma filter_length_split {A : Type} (p : A -> bool) l :
  length l = (length (filter p l) + length (filter (fun a => negb (p a)) l))%nat.
Proof.
  induction l as [|a l IH]; simpl; auto. destruct (p a); simpl; lia.
Qed.

Lemma favorite_matches_scope locationId userId f :
  favorite_matches locationId userId f = true ->
  user_scope userId (fav_userId f) = true.
Proof. unfold favorite_matches. intro H. now apply andb_true_iff in H. Qed.

Lemma favorite_rows_removeFavorite_other s locationId userId other :
  or_null other <> or_null userId ->
  favorite_rows (removeFavorite s locationId userId) other =
  favorite_rows s other.
Proof.
  intro Hne. unfold favorite_rows, removeFavorite. simpl.
  rewrite innerJoin_filter, filter_comm. apply filter_none.
  intros x Hx. apply filter_In in Hx as [_ Hx].
  destruct (favorite_matches locationId userId (fst x)) eqn:M; auto.
  apply favorite_matches_scope in M.
  now rewrite (user_scope_other userId other _ Hne Hx) in M.
Qed.

(** In a well-formed store a pair that is a favorite has exactly one row. *)
Lemma favorites_of_single s locationId userId :
  store_wf s ->
  isFavorite s locationId userId = true ->
  length (filter (favorite_matches locationId userId) (favoriteLocations s)) =
  1%nat.
Proof.
  intros [_ [_ Hfp _] _] Hfav.
  assert (Hle : (length (filter (favorite_matches locationId userId)
                           (favoriteLocations s)) <= 1)%nat).
  { apply NoDup_map_count with (f := fav_pair)
      (k := (locationId, or_null userId)); auto.
    intros f. apply favorite_matches_pair. }
  unfold isFavorite in Hfav. rewrite find_head_filter in Hfav.
  destruct (filter _ _); simpl in *; [discriminate | lia].
Qed.

(** X7. [removeFavorite] deletes the rows of its pair and nothing else: the
    other favorites stay, the check for any other pair answers as before,
    identities of another scope see the same listings, and history, locations
    and sequences are untouched.  In a well-formed store, removing a pair that
    is a favorite shortens every listing of the identity by exactly one. *)
Theorem removeFavorite_frame s locationId userId :
  (forall f, In f (favoriteLocations (removeFavorite s locationId userId)) <->
             In f (favoriteLocations s) /\
             fav_pair f <> (locationId, or_null userId)) /\
  (forall locationId' userId',
     (locationId', or_null userId') <> (locationId, or_null userId) ->
     isFavorite (removeFavorite s locationId userId) locationId' userId' =
     isFavorite s locationId' userId') /\
  (forall other favorites,
     or_null other <> or_null userId ->
     getFavoriteLocations_returns (removeFavorite s locationId userId) other
       favorites <->
     getFavoriteLocations_returns s other favorites) /\
  locationHistory (removeFavorite s locationId userId) = locationHistory s /\
  locations (removeFavorite s locationId userId) = locations s /\
  favoriteLocations_seq (removeFavorite s locationId userId) =
    favoriteLocations_seq s /\
  (store_wf s ->
   isFavorite s locationId userId = true ->
   forall before after,
     getFavoriteLocations_returns s userId before ->
     getFavoriteLocations_returns (removeFavorite s locationId userId) userId
       after ->
     length before = S (length after)).
Proof.
  split; [|split; [|split; [|split; [|split; [|split]]]]]; try reflexivity.
  - intro f. simpl. rewrite filter_In, negb_true_iff.
    rewrite <- not_true_iff_false, favorite_matches_pair. tauto.
  - intros locationId' userId' Hne. unfold isFavorite. simpl.
    rewrite find_filter_implied; auto.
    intros f Hf. apply negb_true_iff.
    destruct (favorite_matches locationId userId f) eqn:M; auto.
    apply favorite_matches_pair in Hf, M. congruence.
  - intros other favorites Hne. unfold getFavoriteLocations_returns.
    now rewrite favorite_rows_removeFavorite_other.
  - intros Hwf Hfav before after Hb Ha.
    rewrite (getFavoriteLocations_count _ _ _ Hwf Hb).
    rewrite (getFavoriteLocations_count _ _ _
               (removeFavorite_wf s locationId userId Hwf) Ha).
    simpl favoriteLocations. rewrite filter_comm.
    rewrite (filter_length_split (favorite_matches locationId userId)
               (filter (fun f => user_scope userId (fav_userId f))
                  (favoriteLocations s))).
    rewrite (filter_comm (favorite_matches locationId userId)).
    rewrite (filter_none _ (filter (favorite_matches locationId userId) _)).
    + now rewrite (favorites_of_single s locationId userId Hwf Hfav).
    + intros f Hf. apply filter_In in Hf as [_ Hf].
      now apply favorite_matches_scope in Hf.
Qed.

Lemma removeFavorite_frame_witness :
  length (getFavoriteLocations tie_store None) =
  S (length (getFavoriteLocations (removeFavorite tie_store 1 None) None)).
Proof.
  destruct (removeFavorite_frame tie_store 1 None) as (_ & _ & _ & _ & _ & _ & H).
  apply H.
  - apply reachable_wf. apply reachable_run, reachable_empty.
  - reflexivity.
  - apply getFavoriteLocations_answer.
  - apply getFavoriteLocations_answer.
Defined.

(** * Clearing history again *)

Lemma clearHistory_idem s userId :
  clearHistory (clearHistory s userId) userId = clearHistory s userId.
Proof. unfold clearHistory. simpl. now rewrite filter_idem. Qed.

(** X8. Clearing history is idempotent: a second clear-history request
    leaves the store that the first one leaves, and so for [clearHistory];
    clearing for two identities gives the same store in either order; and
    clearing for an identity without history rows returns the store
    unchanged. *)
Theorem clearHistory_idempotent s userId other :
  fst (delete_history (fst (delete_history s userId)) userId) =
    fst (delete_history s userId) /\
  clearHistory (clearHistory s userId) userId = clearHistory s userId /\
  clearHistory (clearHistory s userId) other =
    clearHistory (clearHistory s other) userId /\
  (filter (fun h => user_scope userId (hist_userId h)) (locationHistory s) = [] ->
   clearHistory s userId = s).
Proof.
  split; [apply clearHistory_idem|].
  split; [apply clearHistory_idem|]. split.
  - unfold clearHistory. simpl. f_equal. apply filter_comm.
  - intro H. unfold clearHistory. rewrite filter_none; [apply store_eta|].
    intros h Hh. apply negb_true_iff.
    destruct (user_scope userId (hist_userId h)) eqn:E; auto.
    assert (Hin : In h (filter (fun h => user_scope userId (hist_userId h))
                          (locationHistory s)))
      by (apply filter_In; auto).
    rewrite H in Hin. destruct Hin.
Qed.

Lemma clearHistory_idempotent_witness :
  clearHistory new_york_favorite u1 = new_york_favorite.
Proof.
  destruct (clearHistory_idempotent new_york_favorite u1 None)
    as (_ & _ & _ & H).
  apply H. reflexivity.
Defined.

(** * Adding a favorite: again after a removal, and refusals *)

(** X9. A favorite that was removed can be added again: for coordinates that
    resolve to a stored location, add-favorite right after remove-favorite
    for that location and identity answers with the stored location and a new
    favorite row, numbered by the sequence, and inserts no location. *)
Theorem post_favorites_after_remove s body userId now location :
  findLocationByCoords s (body_lat body) (body_lon body) = Some location ->
  snd (post_favorites (fst (delete_favorite s (loc_id location) userId))
         body userId now) =
    FavoriteAdded location
      {| fav_id := favoriteLocations_seq s;
         fav_locationId := loc_id location;
         fav_userId := or_null userId;
         fav_createdAt := now |} /\
  locations (fst (post_favorites
                    (fst (delete_favorite s (loc_id location) userId))
                    body userId now)) = locations s /\
  isFavorite (fst (post_favorites
                     (fst (delete_favorite s (loc_id location) userId))
                     body userId now)) (loc_id location) userId = true.
Proof.
  intro Hfind. unfold delete_favorite. cbn [fst].
  assert (Hres : resolveOrCreateLocation
                   (removeFavorite s (loc_id location) userId) body now =
                 (removeFavorite s (loc_id location) userId, location)).
  { apply resolve_found.
    now rewrite (findLocationByCoords_locations s
                   (removeFavorite s (loc_id location) userId) _ _ eq_refl). }
  unfold post_favorites. rewrite Hres, isFavorite_removeFavorite.
  split; [reflexivity|]. split; [reflexivity|].
  apply isFavorite_addFavorite.
Qed.

Lemma post_favorites_after_remove_witness :
  snd (post_favorites (fst (delete_favorite new_york_favorite 1 u1))
         new_york u1 9) =
  FavoriteAdded (snd (resolveOrCreateLocation empty_store new_york 5))
    {| fav_id := 2; fav_locationId := 1; fav_userId := u1;
       fav_createdAt := 9 |}.
Proof.
  apply (post_favorites_after_remove new_york_favorite new_york u1 9
           (snd (resolveOrCreateLocation empty_store new_york 5))).
  reflexivity.
Defined.

(** X10. In a well-formed store add-favorite is refused exactly when the
    coordinates resolve to a stored location that the identity already has as
    a favorite, and a refused request leaves the store as it was: it does not
    even insert a location. *)
Theorem post_favorites_refused s body userId now :
  store_wf s ->
  (snd (post_favorites s body userId now) = AlreadyFavorited <->
   exists location,
     findLocationByCoords s (body_lat body) (body_lon body) = Some location /\
     isFavorite s (loc_id location) userId = true) /\
  (snd (post_favorites s body userId now) = AlreadyFavorited ->
   fst (post_favorites s body userId now) = s).
Proof.
  intros [[_ Hseq _] [Hfk _ _] _].
  assert (Hrefused : snd (post_favorites s body userId now) = AlreadyFavorited ->
            exists location,
              findLocationByCoords s (body_lat body) (body_lon body) =
                Some location /\
              isFavorite s (loc_id location) userId = true).
  { unfold post_favorites, resolveOrCreateLocation.
    destruct (findLocationByCoords s _ _) as [l|] eqn:F.
    - destruct (isFavorite s (loc_id l) userId) eqn:E; simpl;
        [eauto | discriminate].
    - cbn [createLocation]. cbv zeta.
      match goal with
      | |- context [isFavorite ?s1 ?id userId] =>
          destruct (isFavorite s1 id userId) eqn:E
      end; simpl; [|discriminate].
      intros _. exfalso. apply isFavorite_true in E as (f & Hf & Hid & _).
      simpl in Hf, Hid. rewrite Forall_forall in Hfk, Hseq.
      specialize (Hfk f Hf). apply in_map_iff in Hfk as (l & Hl & Hin).
      specialize (Hseq l Hin). simpl in Hseq. lia. }
  split; [split|].
  - exact Hrefused.
  - intros (location & Hfind & Hfav).
    now rewrite (post_favorites_already s body userId now location).
  - intro H. destruct (Hrefused H) as (location & Hfind & Hfav).
    now rewrite (post_favorites_already s body userId now location).
Qed.

Lemma post_favorites_refused_witness :
  fst (post_favorites new_york_favorite new_york u1 6) = new_york_favorite.
Proof.
  apply (post_favorites_refused new_york_favorite new_york u1 6).
  - apply reachable_wf.
    apply (reachable_handle empty_store (AddFavorite new_york u1) 5).
    apply reachable_empty.
  - reflexivity.
Defined.

(** * The two ledgers do not interfere *)

Lemma innerJoin_snoc_fresh {A : Type} (locationId : A -> Z) rows locs l :
  (forall r, In r rows -> locationId r <> loc_id l) ->
  innerJoin locationId rows (locs ++ [l]) = innerJoin locationId rows locs.
Proof.
  induction rows as [|r rows IH]; simpl; intro H; auto.
  rewrite IH by (intros; apply H; now right).
  rewrite filter_app. simpl.
  destruct (locationId r =? loc_id l) eqn:E.
  - apply Z.eqb_eq in E. exfalso. apply (H r); auto.
  - now rewrite app_nil_r.
Qed.

(** Resolving a location does not change what a ledger joins to. *)
Lemma resolve_innerJoin {A : Type} (locationId : A -> Z) rows s body now :
  locations_wf s ->
  Forall (fun r => has_location s (locationId r)) rows ->
  innerJoin locationId rows
    (locations (fst (resolveOrCreateLocation s body now))) =
  innerJoin locationId rows (locations s).
Proof.
  intros [_ Hseq _] Hfk. unfold resolveOrCreateLocation.
  destruct (findLocationByCoords s _ _); simpl; auto.
  apply innerJoin_snoc_fresh. simpl. intros r Hr Heq.
  rewrite Forall_forall in Hfk, Hseq. specialize (Hfk r Hr).
  apply in_map_iff in Hfk as (l & Hl & Hin). specialize (Hseq l Hin). lia.
Qed.

Lemma post_history_favorites s body userId now :
  favoriteLocations (fst (post_history s body userId now)) =
  favoriteLocations s.
Proof.
  unfold post_history. pose proof (resolve_favorites s body now) as H.
  destruct (resolveOrCreateLocation s body now) as [s1 l]; simpl in *.
  destruct (addToHistory_locations s1 (loc_id l) (or_null userId) now)
    as (_ & _ & -> & _). exact H.
Qed.

Lemma post_favorites_history s body userId now :
  locationHistory (fst (post_favorites s body userId now)) = locationHistory s.
Proof.
  unfold post_favorites. pose proof (resolve_history s body now) as H.
  destruct (resolveOrCreateLocation s body now) as [s1 l]; simpl in *.
  destruct (isFavorite s1 (loc_id l) userId); exact H.
Qed.

(** X11. Favorites and history do not interfere.  In a well-formed store,
    recording a visit leaves every check and every listing of favorites as it
    was, for every identity; adding or removing a favorite leaves every
    listing of history as it was; clearing history leaves the favorites as
    they were. *)
Theorem ledgers_independent s body locationId userId now :
  store_wf s ->
  (forall id other,
     isFavorite (fst (post_history s body userId now)) id other =
     isFavorite s id other) /\
  (forall other favorites,
     get_favorites_returns (fst (post_history s body userId now)) other
       favorites <->
     get_favorites_returns s other favorites) /\
  (forall other limit history,
     get_history_returns (fst (post_favorites s body userId now)) other limit
       history <->
     get_history_returns s other limit history) /\
  (forall other limit history,
     get_history_returns (fst (delete_favorite s locationId userId)) other
       limit history <->
     get_history_returns s other limit history) /\
  (forall id other,
     isFavorite (fst (delete_history s userId)) id other =
     isFavorite s id other) /\
  (forall other favorites,
     get_favorites_returns (fst (delete_history s userId)) other favorites <->
     get_favorites_returns s other favorites).
Proof.
  intros [Hl [Hfk _ _] [Hhk _ _ _ _ _]].
  split; [|split; [|split; [|split; [|split]]]].
  - intros id other. unfold isFavorite.
    now rewrite post_history_favorites.
  - intros other favorites.
    unfold get_favorites_returns, getFavoriteLocations_returns, favorite_rows.
    rewrite post_history_favorites.
    destruct (post_history_locations s body userId now) as [-> _].
    now rewrite (resolve_innerJoin fav_locationId _ s body now Hl Hfk).
  - intros other limit history.
    unfold get_history_returns, getLocationHistory_returns, history_rows.
    rewrite post_favorites_history.
    destruct (post_favorites_locations s body userId now) as [-> _].
    now rewrite (resolve_innerJoin hist_locationId _ s body now Hl Hhk).
  - intros other limit history. reflexivity.
  - intros id other. reflexivity.
  - intros other favorites. reflexivity.
Qed.

Lemma ledgers_independent_witness :
  get_favorites_returns (fst (post_history tie_store cairo u1 9)) None
    (get_favorites tie_store None).
Proof.
  destruct (ledgers_independent tie_store cairo 1 u1 9) as (_ & H & _).
  - apply reachable_wf. apply reachable_run, reachable_empty.
  - apply H. apply getFavoriteLocations_answer.
Defined.

(** * Listings and checks agree *)

Lemma favorite_rows_In s userId f l :
  In (f, l) (favorite_rows s userId) <->
  In f (favoriteLocations s) /\ fav_userId f = or_null userId /\
  In l (locations s) /\ loc_id l = fav_locationId f.
Proof.
  unfold favorite_rows. rewrite filter_In, innerJoin_In. simpl.
  rewrite user_scope_true. tauto.
Qed.

Lemma history_rows_In s userId h l :
  In (h, l) (history_rows s userId) <->
  In h (locationHistory s) /\ hist_userId h = or_null userId /\
  In l (locations s) /\ loc_id l = hist_locationId h.
Proof.
  unfold history_rows. rewrite filter_In, innerJoin_In. simpl.
  rewrite user_scope_true. tauto.
Qed.

(** X12. The check and the listing agree: in a well-formed store a location
    id passes the favorite check for an identity exactly when a location with
    that id is in the listing of the identity's favorites, whichever answer
    the listing query gives. *)
Theorem isFavorite_iff_listed s userId locationId favorites :
  store_wf s ->
  getFavoriteLocations_returns s userId favorites ->
  (isFavorite s locationId userId = true <->
   In locationId (map loc_id favorites)).
Proof.
  intros [_ [Hfk _ _] _] (rows & Hord & ->).
  rewrite isFavorite_true, map_map, in_map_iff. split.
  - intros (f & Hf & Hid & Hu). rewrite Forall_forall in Hfk.
    specialize (Hfk f Hf). apply in_map_iff in Hfk as (l & Hl & Hin).
    exists (f, l). split; [simpl; congruence|].
    apply (orderBy_desc_In fav_key _ rows (f, l) Hord).
    apply favorite_rows_In. auto.
  - intros ([f l] & Hid & Hin). simpl in Hid.
    apply (orderBy_desc_In fav_key _ rows (f, l) Hord) in Hin.
    apply favorite_rows_In in Hin as (Hf & Hu & _ & Hl).
    exists f. repeat split; auto. congruence.
Qed.

Lemma isFavorite_iff_listed_witness :
  In 2 (map loc_id (getFavoriteLocations tie_store None)).
Proof.
  apply (isFavorite_iff_listed tie_store None 2
           (getFavoriteLocations tie_store None)).
  - apply reachable_wf. apply reachable_run, reachable_empty.
  - apply getFavoriteLocations_answer.
  - reflexivity.
Defined.

(** * Listings without duplicates *)

Lemma NoDup_map_same_second {A B C : Type} (f : A -> B) (g : A -> C) c l :
  NoDup (map (fun a => (f a, g a)) l) ->
  (forall a, In a l -> g a = c) ->
  NoDup (map f l).
Proof.
  induction l as [|a l IH]; simpl; intros Hnd Hg; [constructor|].
  inversion Hnd as [|? ? Hn Hl]; subst. constructor; auto.
  intro Hin. apply Hn. apply in_map_iff in Hin as (b & Hb & Hin).
  apply in_map_iff. exists b. split; auto.
  rewrite Hb, (Hg a), (Hg b); auto.
Qed.

Lemma NoDup_firstn {A : Type} n (l : list A) : NoDup l -> NoDup (firstn n l).
Proof.
  intro H. rewrite <- (firstn_skipn n l) in H.
  now apply NoDup_app_remove_r in H.
Qed.

Lemma favorite_rows_distinct s userId rows :
  store_wf s ->
  Permutation (favorite_rows s userId) rows ->
  NoDup (map loc_id (map snd rows)).
Proof.
  intros Hwf Hperm.
  assert (Hext : map loc_id (map snd rows) =
                 map fav_locationId (map fst rows)).
  { rewrite !map_map. apply map_ext_in. intros [f l] Hin.
    apply (Permutation_in _ (Permutation_sym Hperm)) in Hin.
    now apply favorite_rows_In in Hin. }
  rewrite Hext.
  apply (Permutation_NoDup
           (Permutation_map fav_locationId (Permutation_map fst Hperm))).
  rewrite (favorite_rows_fst s userId Hwf).
  destruct Hwf as [_ [_ Hfp _] _].
  apply NoDup_map_same_second with (g := fav_userId) (c := or_null userId).
  - now apply (NoDup_map_filter fav_pair).
  - intros f Hf. apply filter_In in Hf as [_ Hf]. now apply user_scope_true.
Qed.

Lemma history_rows_distinct s userId rows :
  store_wf s ->
  Permutation (history_rows s userId) rows ->
  NoDup (map loc_id (map snd rows)).
Proof.
  intros Hwf Hperm.
  assert (Hext : map loc_id (map snd rows) =
                 map hist_locationId (map fst rows)).
  { rewrite !map_map. apply map_ext_in. intros [h l] Hin.
    apply (Permutation_in _ (Permutation_sym Hperm)) in Hin.
    now apply history_rows_In in Hin. }
  rewrite Hext.
  apply (Permutation_NoDup
           (Permutation_map hist_locationId (Permutation_map fst Hperm))).
  rewrite (history_rows_fst s userId Hwf).
  destruct Hwf as [_ _ [_ Hhp _ _ _ _]].
  apply NoDup_map_same_second with (g := hist_userId) (c := or_null userId).
  - now apply (NoDup_map_filter hist_pair).
  - intros h Hh. apply filter_In in Hh as [_ Hh]. now apply user_scope_true.
Qed.

(** X13. In a well-formed store no listing names a location twice: the
    locations in any answer of the favorites query, and in any answer of the
    history query, have pairwise distinct ids. *)
Theorem listings_without_duplicates s userId limit favorites history :
  store_wf s ->
  (getFavoriteLocations_returns s userId favorites ->
   NoDup (map loc_id favorites)) /\
  (getLocationHistory_returns s userId limit history ->
   NoDup (map loc_id history)).
Proof.
  intro Hwf. split.
  - intros (rows & [Hperm _] & ->).
    now apply (favorite_rows_distinct s userId).
  - intros (rows & [Hperm _] & ->).
    rewrite <- (firstn_map snd), <- (firstn_map loc_id). apply NoDup_firstn.
    now apply (history_rows_distinct s userId).
Qed.

Lemma listings_without_duplicates_witness :
  NoDup (map loc_id (getLocationHistory five_visits None None)).
Proof.
  apply (listings_without_duplicates five_visits None None
           (getFavoriteLocations five_visits None)
           (getLocationHistory five_visits None None)).
  - apply reachable_wf. apply reachable_run, reachable_empty.
  - apply getLocationHistory_answer.
Defined.

(** * The latest visit comes first *)

(** The rows after a visit, in a well-formed store: the row of the pair, with
    the time of the visit, and the rows of the other pairs as they were. *)
Lemma addToHistory_rows s locationId userId now :
  store_wf s ->
  (exists h, In h (locationHistory (addToHistory s locationId userId now)) /\
             hist_pair h = (locationId, or_null userId) /\
             hist_lastVisited h = now) /\
  (forall h, In h (locationHistory (addToHistory s locationId userId now)) ->
     (hist_pair h = (locationId, or_null userId) /\ hist_lastVisited h = now) \/
     (In h (locationHistory s) /\
      hist_pair h <> (locationId, or_null userId))).
Proof.
  intro Hwf.
  destruct (history_of s locationId (or_null userId)) as [|e rest] eqn:E.
  - destruct (addToHistory_first s locationId userId now E) as [Happ _].
    rewrite Happ. split.
    + exists (first_visit s locationId userId now). split; auto.
      apply in_or_app. right. now left.
    + intros h Hh. apply in_app_or in Hh as [Hh|[<-|[]]]; [right|left; auto].
      split; auto. intro Hp. apply history_matches_pair in Hp.
      rewrite history_of_matches in E.
      assert (Hin : In h (filter (history_matches locationId userId)
                            (locationHistory s))) by (apply filter_In; auto).
      rewrite E in Hin. destruct Hin.
  - destruct (addToHistory_existing_wf s locationId userId now e rest Hwf E)
      as (-> & Hrow & Hframe).
    assert (He : hist_pair e = (locationId, or_null userId)).
    { apply history_matches_pair. rewrite history_of_matches in E.
      assert (Hin : In e (filter (history_matches locationId userId)
                            (locationHistory s))) by (rewrite E; now left).
      now apply filter_In in Hin. }
    rewrite history_of_matches in Hrow. split.
    + exists (visited e now).
      assert (Hin : In (visited e now)
                      (filter (history_matches locationId userId)
                         (locationHistory
                            (addToHistory s locationId userId now))))
        by (rewrite Hrow; now left).
      apply filter_In in Hin as [Hin _]. auto.
    + intros h Hh.
      destruct (history_matches locationId userId h) eqn:M.
      * left.
        assert (Hin : In h (filter (history_matches locationId userId)
                              (locationHistory
                                 (addToHistory s locationId userId now))))
          by (apply filter_In; auto).
        rewrite Hrow in Hin. destruct Hin as [<-|[]]. auto.
      * right.
        assert (Hin : In h (filter
                              (fun h => negb (history_matches locationId userId h))
                              (locationHistory
                                 (addToHistory s locationId userId now))))
          by (apply filter_In; rewrite M; auto).
        rewrite Hframe in Hin. apply filter_In in Hin as [Hin _].
        split; auto. intro Hp. apply history_matches_pair in Hp. congruence.
Qed.

(** X14. The location just visited heads the history.  In a well-formed
    store, after add-history at a time later than every earlier visit of the
    identity, every answer of the history listing for that identity, with any
    limit of at least one, starts with the location that the request
    answered. *)
Theorem post_history_listed_first s body userId now limit history :
  store_wf s ->
  (forall h, In h (locationHistory s) ->
     hist_userId h = or_null userId -> hist_lastVisited h < now) ->
  (0 < limit_or_default limit)%nat ->
  get_history_returns (fst (post_history s body userId now)) userId limit
    history ->
  hd_error history = Some (snd (post_history s body userId now)).
Proof.
  intros Hwf Hold Hlimit (rows & [Hperm Hsort] & ->).
  pose proof (post_history_wf s body userId now Hwf) as Hwf2.
  unfold post_history in *.
  pose proof (resolve_wf s body now Hwf) as Hwf1.
  pose proof (resolve_In s body now) as HlocIn.
  pose proof (resolve_history s body now) as Hhist.
  destruct (resolveOrCreateLocation s body now) as [s1 loc].
  cbn [fst snd] in *.
  destruct (addToHistory_locations s1 (loc_id loc) (or_null userId) now)
    as (Hlocs & _).
  destruct (addToHistory_rows s1 (loc_id loc) (or_null userId) now Hwf1)
    as ((hv & Hv & Hvp & Hvt) & Hrows).
  rewrite or_null_idem in Hvp, Hrows.
  set (s2 := addToHistory s1 (loc_id loc) (or_null userId) now) in *.
  assert (Hvrow : In (hv, loc) rows).
  { apply (Permutation_in _ Hperm). apply history_rows_In.
    inversion Hvp. rewrite Hlocs. auto. }
  destruct rows as [|[h0 l0] rows']; [destruct Hvrow|].
  destruct (limit_or_default limit) as [|n]; [lia|]. simpl. f_equal.
  assert (H0 : In (h0, l0) (history_rows s2 userId))
    by (apply (Permutation_in _ (Permutation_sym Hperm)); now left).
  apply history_rows_In in H0 as (Hh0 & Hu0 & Hl0 & Hid0).
  destruct (Hrows h0 Hh0) as [[Hp0 _] | [Hin0 Hp0]].
  - destruct Hwf2 as [[Hids _ _] _ _]. fold s2 in Hids.
    apply (NoDup_map_inj loc_id (locations s2)); auto.
    + rewrite Hlocs. exact HlocIn.
    + inversion Hp0. congruence.
  - exfalso. rewrite Hhist in Hin0. pose proof (Hold h0 Hin0 Hu0) as Hlt.
    destruct Hvrow as [Heq | Hlater].
    + inversion Heq. subst h0. congruence.
    + inversion Hsort as [|? ? _ Hall]; subst.
      rewrite Forall_forall in Hall. specialize (Hall _ Hlater).
      unfold desc_by, hist_key in Hall. simpl in Hall. lia.
Qed.

Lemma post_history_listed_first_witness :
  hd_error (get_history (fst (post_history five_visits london None 7)) None
              (Some 3%nat)) =
  Some (snd (post_history five_visits london None 7)).
Proof.
  apply (post_history_listed_first five_visits london None 7 (Some 3%nat)).
  - apply reachable_wf. apply reachable_run, reachable_empty.
  - intros h Hh _. simpl in Hh.
    repeat (destruct Hh as [<-|Hh]; [simpl; lia|]). destruct Hh.
  - simpl. lia.
  - apply getLocationHistory_answer.
Defined.

(** * Surrogate ids of favorites *)

Lemma handle_favorite_ids s r now :
  Forall (fun f => fav_id f < favoriteLocations_seq s) (favoriteLocations s) ->
  Forall (fun f => fav_id f < favoriteLocations_seq (handle s r now))
    (favoriteLocations (handle s r now)) /\
  favoriteLocations_seq s <= favoriteLocations_seq (handle s r now).
Proof.
  intro H. destruct r as [body u | id u | body u | u]; simpl.
  - unfold post_favorites.
    pose proof (resolve_favorites s body now) as Hf.
    destruct (resolve_seqs s body now) as [Hs _].
    destruct (resolveOrCreateLocation s body now) as [s1 l]; simpl in *.
    destruct (isFavorite s1 (loc_id l) u); simpl; rewrite Hf, Hs.
    + split; [exact H | lia].
    + split; [|lia]. apply Forall_app. split.
      * eapply Forall_impl; [|exact H]. simpl. intros; lia.
      * repeat constructor. simpl. lia.
  - split; [|lia]. eapply incl_Forall; [apply incl_filter | exact H].
  - rewrite post_history_favorites. unfold post_history.
    destruct (resolve_seqs s body now) as [Hs _].
    destruct (resolveOrCreateLocation s body now) as [s1 l]; simpl in *.
    destruct (addToHistory_locations s1 (loc_id l) (or_null u) now)
      as (_ & _ & _ & ->). rewrite Hs. split; [exact H | lia].
  - split; [exact H | lia].
Qed.

Lemma reachable_favorite_ids s :
  reachable s ->
  Forall (fun f => fav_id f < favoriteLocations_seq s) (favoriteLocations s).
Proof.
  induction 1; [constructor | now apply handle_favorite_ids].
Qed.

Lemma run_favorite_seq s reqs :
  Forall (fun f => fav_id f < favoriteLocations_seq s) (favoriteLocations s) ->
  favoriteLocations_seq s <= favoriteLocations_seq (run s reqs).
Proof.
  revert s. induction reqs as [|[r now] reqs IH]; simpl; intros s H; [lia|].
  destruct (handle_favorite_ids s r now H) as [H1 H2].
  specialize (IH _ H1). lia.
Qed.

(** X15. The id of a favorite is never issued again.  In a sequential
    execution, a favorite added after any further requests, removals
    included, gets an id above the id of every favorite that was ever in the
    table before. *)
Theorem favorite_ids_never_reused s reqs body userId now f location favorite :
  reachable s ->
  In f (favoriteLocations s) ->
  snd (post_favorites (run s reqs) body userId now) =
    FavoriteAdded location favorite ->
  fav_id f < fav_id favorite.
Proof.
  intros Hreach Hf Hadded.
  pose proof (reachable_favorite_ids s Hreach) as Hids.
  pose proof (run_favorite_seq s reqs Hids) as Hseq.
  rewrite Forall_forall in Hids. specialize (Hids f Hf).
  assert (Hnew : fav_id favorite = favoriteLocations_seq (run s reqs)).
  { revert Hadded. unfold post_favorites.
    destruct (resolve_seqs (run s reqs) body now) as [Hs _].
    destruct (resolveOrCreateLocation (run s reqs) body now) as [s1 l].
    simpl in *. destruct (isFavorite s1 (loc_id l) userId); simpl;
      [discriminate|]. intros [= _ <-]. simpl. exact Hs. }
  lia.
Qed.

Lemma favorite_ids_never_reused_witness :
  1 < fav_id {| fav_id := 2; fav_locationId := 1; fav_userId := u1;
                fav_createdAt := 9 |}.
Proof.
  apply (favorite_ids_never_reused new_york_favorite
           [(RemoveFavorite 1 u1, 8)] new_york u1 9
           {| fav_id := 1; fav_locationId := 1; fav_userId := u1;
              fav_createdAt := 5 |}
           (snd (resolveOrCreateLocation empty_store new_york 5))).
  - apply (reachable_handle empty_store (AddFavorite new_york u1) 5).
    apply reachable_empty.
  - left. reflexivity.
  - reflexivity.
Defined.

(** * Pages of the favorites manager *)

Lemma firstn_plus {A : Type} a b (l : list A) :
  firstn (a + b) l = firstn a l ++ firstn b (skipn a l).
Proof.
  revert l. induction a as [|a IH]; intro l; simpl; auto.
  destruct l as [|x l]; simpl.
  - now rewrite firstn_nil.
  - now rewrite IH.
Qed.

Lemma totalPages_spec {A : Type} (items : list A) page :
  totalPages (paginate items page) = (Z.of_nat (length items) + 1) / 2.
Proof.
  unfold paginate, ceil_div, ITEMS_PER_PAGE. simpl.
  pose proof (Z.div_mod (- Z.of_nat (length items)) 2 ltac:(lia)).
  pose proof (Z.mod_pos_bound (- Z.of_nat (length items)) 2 ltac:(lia)).
  pose proof (Z.div_mod (Z.of_nat (length items) + 1) 2 ltac:(lia)).
  pose proof (Z.mod_pos_bound (Z.of_nat (length items) + 1) 2 ltac:(lia)).
  lia.
Qed.

(** A page from 1 on is the chunk of [ITEMS_PER_PAGE] rows at its offset. *)
Lemma paginate_data {A : Type} (items : list A) page :
  1 <= page ->
  data (paginate items page) =
  firstn 2 (skipn (2 * Z.to_nat (page - 1)) items).
Proof.
  intro Hp. unfold paginate, slice, ITEMS_PER_PAGE. simpl data.
  destruct ((page - 1) * 2 <? 0) eqn:E1; [apply Z.ltb_lt in E1; lia|].
  destruct (page * 2 <? 0) eqn:E2; [apply Z.ltb_lt in E2; lia|].
  set (len := length items).
  destruct (Z.le_gt_cases (Z.of_nat len) ((page - 1) * 2)) as [Hge | Hlt].
  - rewrite Z.min_r by lia. rewrite Z.min_r by lia.
    rewrite Z.sub_diag. simpl.
    rewrite skipn_all2 by (fold len; lia). reflexivity.
  - rewrite (Z.min_l ((page - 1) * 2)) by lia.
    replace (Z.to_nat ((page - 1) * 2)) with (2 * Z.to_nat (page - 1))%nat
      by lia.
    destruct (Z.le_gt_cases (page * 2) (Z.of_nat len)) as [Hfull | Hpart].
    + rewrite Z.min_l by lia. f_equal. lia.
    + rewrite Z.min_r by lia.
      assert (Hrest : length (skipn (2 * Z.to_nat (page - 1)) items) =
                      Z.to_nat (Z.of_nat len - (page - 1) * 2)).
      { rewrite length_skipn. fold len. lia. }
      rewrite !firstn_all2; auto; rewrite Hrest; lia.
Qed.

Lemma chunks_concat {A : Type} (items : list A) m :
  concat (map (fun k => firstn 2 (skipn (2 * k) items)) (seq 0 m)) =
  firstn (2 * m) items.
Proof.
  induction m as [|m IH]; [reflexivity|].
  rewrite seq_S, map_app, concat_app, IH.
  replace (2 * S m)%nat with (2 * m + 2)%nat by lia.
  rewrite firstn_plus. cbn [map concat Nat.add]. now rewrite app_nil_r.
Qed.

(** X16. The pages of a list are its consecutive chunks: the data of pages
    [1 .. totalPages], put end to end, is the list itself, every one of these
    pages shows at least one and at most [ITEMS_PER_PAGE] items, and every
    page but the last is full. *)
Theorem pages_partition {A : Type} (items : list A) :
  concat (all_pages items) = items /\
  (forall page,
     1 <= page <= totalPages (paginate items page) ->
     (1 <= length (data (paginate items page)) <= 2)%nat /\
     (page < totalPages (paginate items page) ->
      length (data (paginate items page)) = 2%nat)) /\
  (forall page, totalItems (paginate items page) = Z.of_nat (length items)).
Proof.
  split; [|split; [|reflexivity]].
  - unfold all_pages. rewrite totalPages_spec.
    set (m := Z.to_nat ((Z.of_nat (length items) + 1) / 2)).
    rewrite <- seq_shift, map_map.
    rewrite (map_ext _ (fun k => firstn 2 (skipn (2 * k) items))).
    + rewrite chunks_concat. apply firstn_all2.
      pose proof (Z.div_mod (Z.of_nat (length items) + 1) 2 ltac:(lia)).
      pose proof (Z.mod_pos_bound (Z.of_nat (length items) + 1) 2 ltac:(lia)).
      lia.
    + intro k. rewrite paginate_data by lia. do 2 f_equal. lia.
  - intros page. rewrite totalPages_spec. intros [H1 H2].
    rewrite paginate_data by lia. rewrite length_firstn, length_skipn.
    pose proof (Z.div_mod (Z.of_nat (length items) + 1) 2 ltac:(lia)).
    pose proof (Z.mod_pos_bound (Z.of_nat (length items) + 1) 2 ltac:(lia)).
    split; [lia | intro; lia].
Qed.

Lemma pages_partition_witness :
  (1 <= length (data (paginate [10; 20; 30] 2)) <= 2)%nat.
Proof.
  destruct (pages_partition [10; 20; 30]) as (_ & H & _).
  apply (H 2). unfold paginate, ceil_div. simpl. lia.
Defined.

(** X17. The buttons keep the page within the pages: on a page between 1
    and [totalPages], a click on "next" moves to the next page unless the
    page is the last, a click on "previous" moves back unless the page is the
    first, and the page stays between 1 and [totalPages]. *)
Theorem onPageChange_in_range {A : Type} (items : list A) page c :
  1 <= page <= totalPages (paginate items page) ->
  1 <= onPageChange (paginate items page) c <=
    totalPages (paginate items page) /\
  (page < totalPages (paginate items page) ->
   onPageChange (paginate items page) ClickNext = page + 1) /\
  (1 < page -> onPageChange (paginate items page) ClickPrev = page - 1).
Proof.
  intros [H1 H2]. unfold onPageChange, controls_shown, prev_disabled,
    next_disabled. cbn [currentPage paginate].
  change (ceil_div (Z.of_nat (length items)) ITEMS_PER_PAGE)
    with (totalPages (paginate items page)) in *.
  set (t := totalPages (paginate items page)) in *.
  destruct (t <=? 1) eqn:Et; simpl.
  - apply Z.leb_le in Et. split; [destruct c; lia|]. split; intro; lia.
  - apply Z.leb_gt in Et.
    destruct (Z.eqb_spec page 1); destruct (Z.eqb_spec page t);
      (split; [destruct c; lia | split; intro; lia]).
Qed.

Lemma onPageChange_in_range_witness :
  onPageChange (paginate [10; 20; 30] 1) ClickNext = 2.
Proof.
  apply (onPageChange_in_range [10; 20; 30] 1 ClickNext).
  - unfold paginate, ceil_div. simpl. lia.
  - unfold paginate, ceil_div. simpl. lia.
Defined.



(** * Location names written and read back *)

Lemma split_plain sep s : ~ In sep s -> split sep s = [s].
Proof.
  induction s as [|c s IH]; simpl; intro H; auto.
  destruct (Z.eqb_spec c sep) as [->|Hne]; [exfalso; auto|].
  rewrite IH; auto.
Qed.

Lemma split_app sep a b :
  ~ In sep a -> split sep (a ++ sep :: b) = a :: split sep b.
Proof.
  induction a as [|c a IH]; simpl; intro H.
  - now rewrite Z.eqb_refl.
  - destruct (Z.eqb_spec c sep) as [->|Hne]; [exfalso; auto|].
    rewrite IH; auto.
Qed.

Lemma split_two a b :
  ~ In comma a -> ~ In comma b -> split comma (a ++ comma :: b) = [a; b].
Proof. intros Ha Hb. now rewrite split_app, split_plain. Qed.

Lemma split_three a b c :
  ~ In comma a -> ~ In comma b -> ~ In comma c ->
  split comma (a ++ comma :: b ++ comma :: c) = [a; b; c].
Proof. intros Ha Hb Hc. now rewrite split_app, split_two. Qed.

Lemma trim_space s : trim (space :: s) = trim s.
Proof. reflexivity. Qed.

Lemma plain_after_space s : plain s -> ~ In comma (space :: s) /\
                                       trim (space :: s) = s.
Proof.
  intros [Hc Ht]. split; [|now rewrite trim_space].
  intros [H|H]; [discriminate | auto].
Qed.

(** X19. A name written by [formatLocationName] is read back by
    [handleLocationSelect].  For a location whose name, state and country hold
    no comma and no outer white space, and whose country is not empty, the
    name, the country and the state (absent when null or empty) that go into
    the history request are those of the location. *)
Theorem formatLocationName_read_back location :
  plain (listed_name location) ->
  plain (listed_country location) ->
  (forall state, listed_state location = Some state -> plain state) ->
  listed_country location <> [] ->
  handleLocationSelect (formatLocationName location) None =
  {| history_name := listed_name location;
     history_country := Some (listed_country location);
     history_state :=
       match listed_state location with
       | Some state => if nonempty state then Some state else None
       | None => None
       end |}.
Proof.
  destruct location as [name state country]. simpl.
  intros [Hnc Hnt] Hcountry Hstate Hne.
  destruct (plain_after_space country Hcountry) as [Hcc Hct].
  assert (Hnonempty : nonempty country = true) by (destruct country; auto).
  unfold formatLocationName, handleLocationSelect.
  cbn [listed_name listed_state listed_country]. rewrite Hnonempty.
  destruct state as [st|]; [destruct (nonempty st) eqn:Est|].
  - destruct (plain_after_space st (Hstate st eq_refl)) as [Hsc Hst].
    replace ((name ++ [comma; space] ++ st) ++ [comma; space] ++ country)
      with (name ++ comma :: (space :: st) ++ comma :: space :: country)
      by (now rewrite <- app_assoc).
    rewrite split_three by auto. simpl map. now rewrite Hnt, Hst, Hct.
  - change (name ++ [comma; space] ++ country)
      with (name ++ comma :: space :: country).
    rewrite split_two by auto. simpl map. now rewrite Hnt, Hct.
  - change (name ++ [comma; space] ++ country)
      with (name ++ comma :: space :: country).
    rewrite split_two by auto. simpl map. now rewrite Hnt, Hct.
Qed.

Lemma formatLocationName_read_back_witness :
  handleLocationSelect
    (formatLocationName
       {| listed_name := of_ascii "New York";
          listed_state := Some (of_ascii "NY");
          listed_country := of_ascii "US" |}) None =
  {| history_name := of_ascii "New York";
     history_country := Some (of_ascii "US");
     history_state := Some (of_ascii "NY") |}.
Proof.
  apply (formatLocationName_read_back
           {| listed_name := of_ascii "New York";
              listed_state := Some (of_ascii "NY");
              listed_country := of_ascii "US" |}).
  - split; [|reflexivity]. vm_compute. intuition discriminate.
  - split; [|reflexivity]. vm_compute. intuition discriminate.
  - intros state [= <-]. split; [|reflexivity].
    vm_compute. intuition discriminate.
  - discriminate.
Defined.

(** X20. Where the reading differs from what was written.  A location with a
    state and an empty country is read with its state as the country and no
    state; a location whose name holds one comma, with a country and no state,
    is read with the part before the comma as its name and the part after it
    as its state; a location with no state and an empty country is read with
    no country at all. *)
Theorem formatLocationName_misread name state country before after :
  plain name -> plain state -> plain country ->
  state <> [] -> country <> [] ->
  ~ In comma before -> ~ In comma after ->
  handleLocationSelect
    (formatLocationName {| listed_name := name;
                           listed_state := Some state;
                           listed_country := [] |}) None =
    {| history_name := name;
       history_country := Some state;
       history_state := None |} /\
  handleLocationSelect
    (formatLocationName {| listed_name := before ++ comma :: after;
                           listed_state := None;
                           listed_country := country |}) None =
    {| history_name := trim before;
       history_country := Some country;
       history_state := Some (trim after) |} /\
  handleLocationSelect
    (formatLocationName {| listed_name := name;
                           listed_state := None;
                           listed_country := [] |}) None =
    {| history_name := name;
       history_country := None;
       history_state := None |}.
Proof.
  intros [Hnc Hnt] Hstate Hcountry Hse Hce Hb Ha.
  destruct (plain_after_space state Hstate) as [Hsc Hst].
  destruct (plain_after_space country Hcountry) as [Hcc Hct].
  assert (Hs : nonempty state = true) by (destruct state; auto).
  assert (Hc : nonempty country = true) by (destruct country; auto).
  unfold formatLocationName, handleLocationSelect.
  cbn [listed_name listed_state listed_country nonempty].
  rewrite Hs, Hc. split; [|split].
  - change (name ++ [comma; space] ++ state)
      with (name ++ comma :: space :: state).
    rewrite split_two by auto. simpl map. now rewrite Hnt, Hst.
  - replace ((before ++ comma :: after) ++ [comma; space] ++ country)
      with (before ++ comma :: after ++ comma :: space :: country)
      by (now rewrite <- app_assoc).
    rewrite split_three by auto. simpl map. now rewrite Hct.
  - rewrite split_plain by auto. reflexivity.
Qed.

Lemma formatLocationName_misread_witness :
  handleLocationSelect
    (formatLocationName
       {| listed_name := of_ascii "Washington, D.C.";
          listed_state := None;
          listed_country := of_ascii "US" |}) None =
  {| history_name := of_ascii "Washington";
     history_country := Some (of_ascii "US");
     history_state := Some (of_ascii "D.C.") |}.
Proof.
  apply (formatLocationName_misread (of_ascii "a") (of_ascii "NY")
           (of_ascii "US") (of_ascii "Washington") (of_ascii " D.C.")).
  - split; [|reflexivity]. vm_compute. intuition discriminate.
  - split; [|reflexivity]. vm_compute. intuition discriminate.
  - split; [|reflexivity]. vm_compute. intuition discriminate.
  - discriminate.
  - discriminate.
  - vm_compute. intuition discriminate.
  - vm_compute. intuition discriminate.
Defined.

(** * The limit of a history request *)

Lemma decimal_digits_nonempty fuel n :
  (0 < fuel)%nat -> decimal_digits fuel n <> [].
Proof.
  destruct fuel as [|fuel]; [lia|]. intros _. simpl.
  destruct (n <? 10); [discriminate|].
  destruct (decimal_digits fuel (n / 10)); discriminate.
Qed.

Lemma decimal_digits_spec fuel n :
  0 <= n < 10 ^ Z.of_nat fuel ->
  Forall (fun d => 0 <= d <= 9) (decimal_digits fuel n) /\
  digits_value (decimal_digits fuel n) 0 = n.
Proof.
  revert n. induction fuel as [|fuel IH]; intros n Hn.
  - simpl in *. split; [constructor | unfold digits_value; simpl; lia].
  - simpl decimal_digits. destruct (Z.ltb_spec n 10) as [Hlt | Hge].
    + split; [repeat constructor; lia | unfold digits_value; simpl; lia].
    + rewrite Nat2Z.inj_succ, Z.pow_succ_r in Hn by lia.
      assert (Hq : 0 <= n / 10 < 10 ^ Z.of_nat fuel).
      { split; [apply Z.div_pos; lia|].
        apply Z.div_lt_upper_bound; lia. }
      destruct (IH _ Hq) as [Hall Hval]. split.
      * apply Forall_app. split; auto. repeat constructor.
        -- apply Z.mod_pos_bound; lia.
        -- pose proof (Z.mod_pos_bound n 10 ltac:(lia)). lia.
      * unfold digits_value in *. rewrite fold_left_app, Hval. simpl.
        pose proof (Z.div_mod n 10 ltac:(lia)). lia.
Qed.

Lemma digit_value_char d :
  0 <= d <= 9 -> digit_value 10 (digit_char d) = Some d.
Proof.
  intro H. unfold digit_value, digit_char.
  destruct (Z.leb_spec 48 (48 + d)); [|lia].
  destruct (Z.leb_spec (48 + d) 57); [|lia].
  cbn [andb]. f_equal. lia.
Qed.

Lemma parse_digits_chars ds acc :
  Forall (fun d => 0 <= d <= 9) ds ->
  parse_digits 10 (map digit_char ds) acc =
  match ds with
  | [] => acc
  | _ :: _ => Some (digits_value ds (match acc with Some a => a | None => 0 end))
  end.
Proof.
  intro H. revert acc. induction H as [|d ds Hd Hds IH]; intro acc; auto.
  simpl parse_digits. rewrite (digit_value_char d Hd), IH.
  destruct ds; reflexivity.
Qed.

Lemma is_white_digit_char d : 0 <= d <= 9 -> is_white (digit_char d) = false.
Proof.
  intro H. unfold digit_char.
  assert (Hd : d = 0 \/ d = 1 \/ d = 2 \/ d = 3 \/ d = 4 \/ d = 5 \/ d = 6 \/
               d = 7 \/ d = 8 \/ d = 9) by lia.
  repeat (destruct Hd as [-> | Hd]; [reflexivity|]). now subst.
Qed.

Lemma read_radix_digits ds :
  Forall (fun d => 0 <= d <= 9) ds ->
  read_radix (map digit_char ds) = (10, map digit_char ds).
Proof.
  intro Hall. destruct ds as [|d [|x ds']]; try reflexivity.
  inversion Hall as [|? ? _ Hrest]; subst.
  inversion Hrest as [|? ? Hx _]; subst.
  unfold read_radix. cbn [map].
  assert (H120 : (digit_char x =? 120) = false)
    by (apply Z.eqb_neq; unfold digit_char; lia).
  assert (H88 : (digit_char x =? 88) = false)
    by (apply Z.eqb_neq; unfold digit_char; lia).
  now rewrite H120, H88, andb_false_r.
Qed.

Lemma read_sign_digit d s :
  0 <= d <= 9 -> read_sign (digit_char d :: s) = (1, digit_char d :: s).
Proof.
  intro H. unfold read_sign.
  assert (H45 : (digit_char d =? 45) = false)
    by (apply Z.eqb_neq; unfold digit_char; lia).
  assert (H43 : (digit_char d =? 43) = false)
    by (apply Z.eqb_neq; unfold digit_char; lia).
  now rewrite H45, H43.
Qed.

(** Reading a run of digit characters that starts the string. *)
Lemma parseInt_digits ds :
  Forall (fun d => 0 <= d <= 9) ds -> ds <> [] ->
  parseInt (map digit_char ds) = Some (digits_value ds 0) /\
  parseInt (45 :: map digit_char ds) = Some (- digits_value ds 0).
Proof.
  intros Hall Hne.
  assert (Hparse : parse_digits 10 (map digit_char ds) None =
                   Some (digits_value ds 0)).
  { rewrite (parse_digits_chars ds None Hall).
    destruct ds; [congruence | reflexivity]. }
  split.
  - destruct ds as [|d ds']; [congruence|].
    inversion Hall as [|? ? Hd _]; subst.
    unfold parseInt. cbn [map trimStart].
    rewrite (is_white_digit_char d Hd), (read_sign_digit d _ Hd).
    change (digit_char d :: map digit_char ds')
      with (map digit_char (d :: ds')).
    rewrite (read_radix_digits _ Hall), Hparse. cbn [option_map].
    f_equal; lia.
  - unfold parseInt. cbn [trimStart].
    change (is_white 45) with false. cbn iota.
    unfold read_sign. rewrite Z.eqb_refl.
    rewrite (read_radix_digits _ Hall), Hparse. cbn [option_map].
    f_equal; lia.
Qed.

(** [parseInt] reads back what [toString] writes, for every integer in the
    safe range. *)
Lemma parseInt_toString_safe n :
  - 2 ^ 53 < n < 2 ^ 53 -> parseInt (toString n) = Some n.
Proof.
  intro H. unfold toString.
  assert (Hpow : 2 ^ 53 < 10 ^ Z.of_nat 21) by (vm_compute; reflexivity).
  destruct (Z.ltb_spec n 0) as [Hneg | Hpos].
  - destruct (decimal_digits_spec 21 (- n) ltac:(lia)) as [Hall Hval].
    destruct (parseInt_digits _ Hall
                (decimal_digits_nonempty 21 (- n) ltac:(lia))) as [_ Hp].
    rewrite Hp, Hval. f_equal. lia.
  - destruct (decimal_digits_spec 21 n ltac:(lia)) as [Hall Hval].
    destruct (parseInt_digits _ Hall
                (decimal_digits_nonempty 21 n ltac:(lia))) as [Hp _].
    now rewrite Hp, Hval.
Qed.

Lemma toString_nonempty n : nonempty (toString n) = true.
Proof.
  unfold toString. destruct (n <? 0); [reflexivity|].
  pose proof (decimal_digits_nonempty 21 n ltac:(lia)) as H.
  destruct (decimal_digits 21 n); [congruence | reflexivity].
Qed.

(** X21. The limit that the client asks for is the limit that the storage
    method gets, except zero: a positive limit arrives as itself, while a
    limit of 0 is not sent at all, so that the handler falls back to its
    default and lists up to ten locations instead of none. *)
Theorem history_limit_transport s userId n history :
  0 <= n < 2 ^ 53 ->
  (0 < n ->
   (get_history_query_returns s userId (history_limit_param (Some n)) history <->
    get_history_returns s userId (Some (Z.to_nat n)) history)) /\
  (get_history_query_returns s userId (history_limit_param (Some 0)) history <->
   get_history_returns s userId (Some 10%nat) history) /\
  (get_history_query_returns s userId (history_limit_param None) history <->
   get_history_returns s userId None history).
Proof.
  intro H. split; [|split; reflexivity].
  intro Hpos. unfold get_history_query_returns, history_limit_param,
    history_limit_query.
  destruct (Z.eqb_spec n 0); [lia|].
  rewrite toString_nonempty, parseInt_toString_safe by lia.
  unfold getLocationHistory_number_returns.
  destruct (Z.leb_spec 0 n); [reflexivity | lia].
Qed.

Lemma history_limit_transport_witness :
  get_history_query_returns five_visits None (history_limit_param (Some 2))
    (get_history five_visits None (Some 2%nat)).
Proof.
  destruct (history_limit_transport five_visits None 2
              (get_history five_visits None (Some 2%nat))) as (H & _).
  - vm_compute. split; [discriminate | reflexivity].
  - apply H; [lia|]. apply getLocationHistory_answer.
Defined.

Lemma getLocationHistory_returns_bound s userId limit history :
  getLocationHistory_returns s userId limit history ->
  (length history <= limit_or_default limit)%nat.
Proof.
  intros (rows & _ & ->). rewrite length_map, length_firstn. apply Nat.le_min_l.
Qed.

(** X22. The history tab of the favorites manager is bounded: the request it
    sends carries the limit 50, so whatever the store holds the list it
    receives has at most 50 locations, spread over at most 25 pages. *)
Theorem manager_history_bounded s userId history page :
  get_history_query_returns s userId manager_history_limit history ->
  (length history <= 50)%nat /\
  totalItems (paginate history page) <= 50 /\
  totalPages (paginate history page) <= 25.
Proof.
  unfold get_history_query_returns.
  change (history_limit_query manager_history_limit) with (Some (Some 50)).
  intro H.
  change (getLocationHistory_returns s userId (Some 50%nat) history) in H.
  apply getLocationHistory_returns_bound in H.
  simpl in H. split; [exact H|]. split.
  - simpl. lia.
  - rewrite totalPages_spec.
    assert ((Z.of_nat (length history) + 1) / 2 < 26)
      by (apply Z.div_lt_upper_bound; lia).
    lia.
Qed.

Lemma manager_history_bounded_witness :
  (length (get_history five_visits None (Some 50%nat)) <= 50)%nat.
Proof.
  apply (manager_history_bounded five_visits None
           (get_history five_visits None (Some 50%nat)) 1).
  unfold get_history_query_returns.
  change (history_limit_query manager_history_limit) with (Some (Some 50)).
  exact (getLocationHistory_answer five_visits None (Some 50%nat)).
Defined.

(** * Visiting again after a clear *)

Lemma history_of_clearHistory s userId locationId :
  history_of (clearHistory s userId) locationId (or_null userId) = [].
Proof.
  rewrite history_of_matches. simpl. apply filter_all_false.
  intros h Hh. apply filter_In in Hh as [_ Hh].
  apply negb_true_iff in Hh. unfold history_matches.
  now rewrite Hh, andb_false_r.
Qed.

(** X23. Clearing history forgets the counts: the first add-history after a
    clear-history of the same identity starts a new row for the location,
    with a new id from the sequence, a count of 1 and the time of the
    request, whatever the count was before. *)
Theorem post_history_after_clear s body userId now :
  history_of
    (fst (post_history (fst (delete_history s userId)) body userId now))
    (loc_id (snd (post_history (fst (delete_history s userId)) body userId now)))
    (or_null userId) =
  [ {| hist_id := locationHistory_seq s;
       hist_locationId :=
         loc_id (snd (post_history (fst (delete_history s userId)) body
                        userId now));
       hist_userId := or_null userId;
       hist_visitCount := 1;
       hist_lastVisited := now |} ].
Proof.
  unfold delete_history. cbn [fst]. rewrite clearHistory_or_null.
  unfold post_history.
  pose proof (resolve_history (clearHistory s userId) body now) as Hh.
  destruct (resolve_seqs (clearHistory s userId) body now) as [_ Hs].
  destruct (resolveOrCreateLocation (clearHistory s userId) body now)
    as [s1 l]. cbn [fst snd] in *.
  assert (Hnone : history_of s1 (loc_id l) (or_null (or_null userId)) = []).
  { rewrite or_null_idem. unfold history_of. rewrite Hh.
    apply (history_of_clearHistory s userId (loc_id l)). }
  destruct (addToHistory_first s1 (loc_id l) (or_null userId) now Hnone)
    as [_ Hrow].
  rewrite or_null_idem in Hrow. rewrite Hrow. unfold first_visit.
  now rewrite Hs, or_null_idem.
Qed.

(** * An identity stored as the empty string *)

Lemma user_scope_empty_column userId :
  user_scope userId (Some ""%string) = false.
Proof.
  destruct (user_scope userId (Some ""%string)) eqn:E; auto.
  apply user_scope_true in E. symmetry in E.
  now apply or_null_not_empty in E.
Qed.

(** X24. [addFavorite] stores the identity of its row as it is given, and a
    row stored with the empty string, for a location id that has its row in
    [locations], is out of reach of every other method: for every identity,
    the check and the rows selected for the listing are what they were
    before the insert, and no [removeFavorite] deletes the row. *)
Theorem addFavorite_empty_string_unreachable s locationId now userId id :
  has_location s locationId ->
  fav_userId (snd (addFavorite s {| ins_fav_locationId := locationId;
                                    ins_fav_userId := Some ""%string |} now)) =
    Some ""%string /\
  isFavorite (fst (addFavorite s {| ins_fav_locationId := locationId;
                                    ins_fav_userId := Some ""%string |} now))
    id userId = isFavorite s id userId /\
  favorite_rows (fst (addFavorite s {| ins_fav_locationId := locationId;
                                       ins_fav_userId := Some ""%string |} now))
    userId = favorite_rows s userId /\
  In (snd (addFavorite s {| ins_fav_locationId := locationId;
                            ins_fav_userId := Some ""%string |} now))
    (favoriteLocations
       (removeFavorite
          (fst (addFavorite s {| ins_fav_locationId := locationId;
                                 ins_fav_userId := Some ""%string |} now))
          id userId)).
Proof.
  intros _. split; [reflexivity|]. split; [|split].
  - unfold isFavorite. simpl. rewrite !find_head_filter, filter_app. simpl.
    unfold favorite_matches at 2. simpl.
    rewrite user_scope_empty_column, andb_false_r. now rewrite app_nil_r.
  - unfold favorite_rows, innerJoin. simpl.
    rewrite flat_map_app, filter_app. simpl. rewrite app_nil_r.
    rewrite (filter_all_false _ (map _ _)); [now rewrite app_nil_r|].
    intros x Hx. apply in_map_iff in Hx as (l & <- & _). simpl.
    apply user_scope_empty_column.
  - simpl. apply filter_In. split.
    + apply in_or_app. right. now left.
    + unfold favorite_matches. simpl.
      now rewrite user_scope_empty_column, andb_false_r.
Qed.

Lemma addFavorite_empty_string_unreachable_witness :
  has_location one_visit 1 /\
  isFavorite
    (fst (addFavorite one_visit {| ins_fav_locationId := 1;
                                   ins_fav_userId := Some ""%string |} 7))
    1 (Some ""%string) = isFavorite one_visit 1 (Some ""%string) /\
  favorite_rows
    (fst (addFavorite one_visit {| ins_fav_locationId := 1;
                                   ins_fav_userId := Some ""%string |} 7))
    None = favorite_rows one_visit None.
Proof.
  assert (Hloc : has_location one_visit 1) by (now left).
  split; [exact Hloc|].
  destruct (addFavorite_empty_string_unreachable one_visit 1 7
              (Some ""%string) 1 Hloc) as (_ & H & _).
  destruct (addFavorite_empty_string_unreachable one_visit 1 7 None 1 Hloc)
    as (_ & _ & Hrows & _).
  split; [exact H | exact Hrows].
Defined.
